(** * semver: validation and ordering of semantic version strings

    A shallow embedding of [semver.go] (package [semver]) together with the
    parts of the Go standard library and of [github.com/juju/errors] that the
    package calls, and the properties of the package proved over it.

    Go strings are byte sequences: they are lists of [ascii] here.  Go's [int]
    is the 64-bit one ([strconv.IntSize = 64]); integers are [Z] and every
    place where the Go code can wrap or overflow is written out. *)

From Stdlib Require Import List Bool Ascii String ZArith NArith Lia.
From Stdlib Require Import DecimalString.
Import ListNotations.

Local Open Scope string_scope.
Local Open Scope list_scope.
Local Open Scope Z_scope.

(** ** Strings *)

Definition str : Type := list ascii.

Definition lit (s : string) : str := list_ascii_of_string s.
Coercion lit : string >-> str.

Definition len (s : str) : Z := Z.of_nat (List.length s).

(** Byte of a character, as the integer Go compares. *)
Definition code (c : ascii) : Z := Z.of_N (N_of_ascii c).

(** [lo <= c && c <= hi] on bytes. *)
Definition between (lo hi c : ascii) : bool :=
  (code lo <=? code c) && (code c <=? code hi).

Definition isDigit (c : ascii) : bool := between "0" "9" c.

(** ** Errors: [github.com/juju/errors] and [strconv.NumError] *)

Module errors.

Inductive numErr : Type :=
| ErrSyntax
| ErrRange.

(** [Errorf] builds a fresh error from its formatted message, [Trace] wraps
    an error with the caller's location and nothing else, [NumError] is the
    error value of package [strconv]. *)
Inductive error : Type :=
| Errorf (message : str)
| NumError (fn : str) (num : str) (err : numErr)
| Trace (previous : error).

(** [errors.Cause]: the error underneath the location annotations. *)
Fixpoint Cause (e : error) : error :=
  match e with
  | Trace previous => Cause previous
  | _ => e
  end.

(** [strconv.Quote] of a text without bytes to escape. *)
Definition quote (s : str) : str := [ascii_of_nat 34] ++ s ++ [ascii_of_nat 34].

(** [Error()]: the text of the error; [Trace] adds none of its own. *)
Fixpoint Error (e : error) : str :=
  match e with
  | Errorf message => message
  | NumError fn num ErrSyntax =>
      lit "strconv." ++ fn ++ lit ": parsing " ++ quote num ++ lit ": invalid syntax"
  | NumError fn num ErrRange =>
      lit "strconv." ++ fn ++ lit ": parsing " ++ quote num ++ lit ": value out of range"
  | Trace previous => Error previous
  end.

End errors.
Import errors.

(** Result of a Go function returning [(T, error)] whose value is only used
    when the error is [nil]. *)
Inductive result (A : Type) : Type :=
| Ok (a : A)
| Err (e : error).
Arguments Ok {A} a.
Arguments Err {A} e.

(** [%d] of a non-negative count. *)
Definition formatInt (n : nat) : str := lit (NilEmpty.string_of_uint (Nat.to_uint n)).

(** ** Package [regexp]: the fragment of the syntax the pattern uses *)

Module regexp.

Inductive Regexp : Type :=
| NoMatch
| EmptyMatch
| Literal (c : ascii)
| CharClass (ranges : list (ascii * ascii))
| Concat (r1 r2 : Regexp)
| Alternate (r1 r2 : Regexp)
| Star (r : Regexp).

(** [r?] and [r+]. *)
Definition Quest (r : Regexp) : Regexp := Alternate r EmptyMatch.
Definition Plus (r : Regexp) : Regexp := Concat r (Star r).

Definition inClass (ranges : list (ascii * ascii)) (c : ascii) : bool :=
  existsb (fun r => between (fst r) (snd r) c) ranges.

(** The language of an expression. *)
Inductive matches : Regexp -> str -> Prop :=
| m_empty : matches EmptyMatch []
| m_literal c : matches (Literal c) [c]
| m_class ranges c : inClass ranges c = true -> matches (CharClass ranges) [c]
| m_concat r1 r2 s1 s2 :
    matches r1 s1 -> matches r2 s2 -> matches (Concat r1 r2) (s1 ++ s2)
| m_alt_l r1 r2 s : matches r1 s -> matches (Alternate r1 r2) s
| m_alt_r r1 r2 s : matches r2 s -> matches (Alternate r1 r2) s
| m_star_nil r : matches (Star r) []
| m_star_app r s1 s2 :
    matches r s1 -> matches (Star r) s2 -> matches (Star r) (s1 ++ s2).

(** Does the expression match the empty text? *)
Fixpoint nullable (r : Regexp) : bool :=
  match r with
  | NoMatch => false
  | EmptyMatch => true
  | Literal _ => false
  | CharClass _ => false
  | Concat r1 r2 => nullable r1 && nullable r2
  | Alternate r1 r2 => nullable r1 || nullable r2
  | Star _ => true
  end.

(** What is left to match after reading the byte [c]. *)
Fixpoint step (c : ascii) (r : Regexp) : Regexp :=
  match r with
  | NoMatch => NoMatch
  | EmptyMatch => NoMatch
  | Literal c' => if Ascii.eqb c c' then EmptyMatch else NoMatch
  | CharClass ranges => if inClass ranges c then EmptyMatch else NoMatch
  | Concat r1 r2 =>
      if nullable r1
      then Alternate (Concat (step c r1) r2) (step c r2)
      else Concat (step c r1) r2
  | Alternate r1 r2 => Alternate (step c r1) (step c r2)
  | Star r1 => Concat (step c r1) (Star r1)
  end.

Fixpoint run (r : Regexp) (s : str) : bool :=
  match s with
  | [] => nullable r
  | c :: s' => run (step c r) s'
  end.

(** [Regexp.MatchString] for a pattern written [^r$] without flags: the
    two anchors pin the match to the whole text, so the search for a match
    anywhere is the membership of the text in the language of [r]. *)
Definition MatchString (re : Regexp) (s : str) : bool := run re s.

End regexp.
Import regexp.

(** ** Package [strings], at one-byte separators

    [semver.go] only ever passes the one-byte separators ["-"] and ["."]; for
    those [strings.Index] and [strings.Count] are [IndexByte] and the byte
    count, which is what is modelled. *)

Module strings.

(** [IndexByte]: the position of the first [c] in [s], or [-1]. *)
Fixpoint IndexByte (s : str) (c : ascii) : Z :=
  match s with
  | [] => -1
  | x :: s' =>
      if Ascii.eqb x c then 0
      else let i := IndexByte s' c in if i <? 0 then -1 else i + 1
  end.

Definition Index (s : str) (sep : ascii) : Z := IndexByte s sep.

Definition Contains (s : str) (substr : ascii) : bool := Index s substr >=? 0.

Fixpoint Count (s : str) (sep : ascii) : Z :=
  match s with
  | [] => 0
  | x :: s' => (if Ascii.eqb x sep then 1 else 0) + Count s' sep
  end.

(** The loop of [genSplit]: at most [n] cuts, then the rest of the text. *)
Fixpoint splitLoop (n : nat) (s : str) (sep : ascii) : list str :=
  match n with
  | O => [s]
  | S n' =>
      let m := Index s sep in
      if m <? 0 then [s]
      else firstn (Z.to_nat m) s :: splitLoop n' (skipn (Z.to_nat (m + 1)) s) sep
  end.

(** [genSplit(s, sep, 0, n)]. *)
Definition genSplit (s : str) (sep : ascii) (n : Z) : list str :=
  if n =? 0 then []
  else
    let n := if n <? 0 then Count s sep + 1 else n in
    let n := if n >? len s + 1 then len s + 1 else n in
    splitLoop (Z.to_nat (n - 1)) s sep.

Definition SplitN (s : str) (sep : ascii) (n : Z) : list str := genSplit s sep n.

Definition Split (s : str) (sep : ascii) : list str := genSplit s sep (-1).

End strings.

(** ** Package [strconv]: [Atoi] *)

Module strconv.

Definition intSize : Z := 64.

Definition digit (c : ascii) : Z := code c - code "0".

Definition syntaxError (fn : string) (s : str) : error := NumError fn s ErrSyntax.
Definition rangeError (fn : string) (s : str) : error := NumError fn s ErrRange.

(** Wrap-around of [uint64] and of [int]. *)
Definition wrapU (n : Z) : Z := n mod 2 ^ 64.
Definition wrapInt (n : Z) : Z := (n + 2 ^ 63) mod 2 ^ 64 - 2 ^ 63.

(** The loop of [ParseUint(s, 10, 64)] from the accumulator [n]: the value,
    or the kind of failure.  A byte that is no decimal digit (a letter is a
    digit of a base above ten) is a syntax error. *)
Fixpoint parseUintLoop (s : str) (n : Z) : Z + numErr :=
  match s with
  | [] => inl n
  | c :: s' =>
      if isDigit c then
        let maxVal := 2 ^ 64 - 1 in
        let cutoff := maxVal / 10 + 1 in
        if n >=? cutoff then inr ErrRange
        else
          let n := wrapU (n * 10) in
          let n1 := wrapU (n + digit c) in
          if (n1 <? n) || (n1 >? maxVal) then inr ErrRange
          else parseUintLoop s' n1
      else inr ErrSyntax
  end.

Definition ParseUint (s : str) : Z + numErr :=
  match s with
  | [] => inr ErrSyntax
  | _ => parseUintLoop s 0
  end.

(** [ParseInt(s, 10, 0)]; a range failure of [ParseUint] comes with the
    value [maxVal], which is answered by the range check below. *)
Definition ParseInt (s : str) : Z + numErr :=
  match s with
  | [] => inr ErrSyntax
  | c :: s' =>
      let neg := Ascii.eqb c "-" in
      let s1 := if Ascii.eqb c "+" || Ascii.eqb c "-" then s' else s in
      match ParseUint s1 with
      | inr ErrSyntax => inr ErrSyntax
      | r =>
          let un := match r with inl un => un | inr _ => 2 ^ 64 - 1 end in
          let cutoff := 2 ^ (intSize - 1) in
          if negb neg && (un >=? cutoff) then inr ErrRange
          else if neg && (un >? cutoff) then inr ErrRange
          else inl (if neg then - un else un)
      end
  end.

(** The fast path of [Atoi]: fewer than 19 bytes always fit an [int]. *)
Fixpoint atoiLoop (s : str) (n : Z) : option Z :=
  match s with
  | [] => Some n
  | ch :: s' =>
      if isDigit ch then atoiLoop s' (wrapInt (n * 10 + digit ch))
      else None
  end.

Definition Atoi (s : str) : result Z :=
  let sLen := len s in
  if (0 <? sLen) && (sLen <? 19) then
    match s with
    | [] => Err (syntaxError "Atoi" s)
    | c :: s' =>
        let signed := Ascii.eqb c "-" || Ascii.eqb c "+" in
        let s1 := if signed then s' else s in
        if signed && (len s1 <? 1) then Err (syntaxError "Atoi" s)
        else
          match atoiLoop s1 0 with
          | None => Err (syntaxError "Atoi" s)
          | Some n => Ok (if Ascii.eqb c "-" then wrapInt (- n) else n)
          end
    end
  else
    match ParseInt s with
    | inl i64 => Ok i64
    | inr kind => Err (NumError "Atoi" s kind)
    end.

End strconv.

(** ** Package [semver] *)

Definition expectedChunksWithTag : Z := 2.
Definition exptectedPartsWithRevision : Z := 3.

(** Semver validator to do checks based on the semver 2.0.0 spec. *)
Record Semver : Type := { reValid : Regexp }.

Record semVersion : Type := {
  major : Z;
  minor : Z;
  revision : Z;
  tag : str
}.

Definition setMajor (v : semVersion) (n : Z) : semVersion :=
  {| major := n; minor := minor v; revision := revision v; tag := tag v |}.
Definition setMinor (v : semVersion) (n : Z) : semVersion :=
  {| major := major v; minor := n; revision := revision v; tag := tag v |}.
Definition setRevision (v : semVersion) (n : Z) : semVersion :=
  {| major := major v; minor := minor v; revision := n; tag := tag v |}.
Definition setTag (v : semVersion) (t : str) : semVersion :=
  {| major := major v; minor := minor v; revision := revision v; tag := t |}.

(** [a != b] on strings is [negb (streq a b)]; the empty string is [[]]. *)
Fixpoint streq (a b : str) : bool :=
  match a, b with
  | [], [] => true
  | x :: a', y :: b' => Ascii.eqb x y && streq a' b'
  | _, _ => false
  end.

(** The pieces of the pattern that [New] compiles, in the order they appear
    in it.  The pattern is anchored at both ends. *)

(** A core number, [0|[1-9]\d*]: a lone zero, or a digit from 1 to 9 and then
    digits.  [\d] is [[0-9]]. *)
Definition reDigit : Regexp := CharClass [("0", "9")]%char.
Definition reNonZero : Regexp := CharClass [("1", "9")]%char.
Definition reNumeric : Regexp :=
  Alternate (Literal "0") (Concat reNonZero (Star reDigit)).

(** A pre-release identifier, [0|[1-9]\d*|\d*[a-zA-Z-][0-9a-zA-Z-]*]: a number
    as above, or digits, then a letter or a dash, then letters, digits and
    dashes.  A pre-release is an identifier and then, any number of times, a
    dot and an identifier. *)
Definition reLetterDash : Regexp := CharClass [("a", "z"); ("A", "Z"); ("-", "-")]%char.
Definition reAlnumDash : Regexp :=
  CharClass [("0", "9"); ("a", "z"); ("A", "Z"); ("-", "-")]%char.
Definition reIdentifier : Regexp :=
  Alternate (Literal "0")
    (Alternate (Concat reNonZero (Star reDigit))
       (Concat (Star reDigit) (Concat reLetterDash (Star reAlnumDash)))).
Definition rePrerelease : Regexp :=
  Concat reIdentifier (Star (Concat (Literal ".") reIdentifier)).

(** Build metadata: [[0-9a-zA-Z-]+] and then, any number of times, a dot and
    [[0-9a-zA-Z-]+]. *)
Definition reBuild : Regexp :=
  Concat (Plus reAlnumDash) (Star (Concat (Literal ".") (Plus reAlnumDash))).

(** What may follow the core: a dash and a pre-release, then a plus and
    build metadata, each of them optional. *)
Definition reSuffix : Regexp :=
  Concat (Quest (Concat (Literal "-") rePrerelease))
    (Quest (Concat (Literal "+") reBuild)).

Definition reSemver : Regexp :=
  Concat reNumeric
    (Concat (Literal ".")
       (Concat reNumeric
          (Concat (Literal ".")
             (Concat reNumeric reSuffix)))).

(** New returns a new instance of Semver.  The pattern is a constant that
    compiles, so the error branch of [New] is never taken. *)
Definition New : result Semver := Ok {| reValid := reSemver |}.

(** The instance [New] returns. *)
Definition semver : Semver := {| reValid := reSemver |}.

(** IsValid checks if the given version is a valid semver format. *)
Definition Valid (s : Semver) (version : str) : bool :=
  MatchString (reValid s) version.

Definition buildVersion (s : Semver) (version : str) : result semVersion :=
  let semVersion := {| major := 0; minor := 0; revision := 0; tag := [] |} in
  match
    (if strings.Contains version "-" then
       let chunks := strings.SplitN version "-" 2 in
       if negb (Z.of_nat (List.length chunks) =? expectedChunksWithTag) then
         Err (Errorf (lit "versions with a tag should be 2 chunks. Got "
                        ++ formatInt (List.length chunks)))
       else Ok (setTag semVersion (nth 1 chunks []), nth 0 chunks [])
     else Ok (semVersion, version))
  with
  | Err err => Err err
  | Ok (semVersion, version) =>
      let versionParts := strings.Split version "." in
      let versionPartsLength := Z.of_nat (List.length versionParts) in
      if negb (versionPartsLength =? 2) && negb (versionPartsLength =? 3) then
        Err (Errorf (lit "versions should be 2 or 3 parts. Got "
                       ++ formatInt (List.length versionParts)))
      else
        match strconv.Atoi (nth 0 versionParts []) with
        | Err err => Err (Trace err)
        | Ok n =>
            let semVersion := setMajor semVersion n in
            match strconv.Atoi (nth 1 versionParts []) with
            | Err err => Err (Trace err)
            | Ok n =>
                let semVersion := setMinor semVersion n in
                if versionPartsLength =? exptectedPartsWithRevision then
                  match strconv.Atoi (nth 2 versionParts []) with
                  | Err err => Err (Trace err)
                  | Ok n => Ok (setRevision semVersion n)
                  end
                else Ok semVersion
            end
        end
  end.

(** GreaterThanOrEqual checks if the given version is greater than or equal
    to the compare version. *)
Definition GreaterThanOrEqual (s : Semver) (version compare : str) : bool * option error :=
  if negb (Valid s version) then
    (false, Some (Errorf (lit "version `" ++ version ++ lit "` is invalid")))
  else if negb (Valid s compare) then
    (false, Some (Errorf (lit "compare `" ++ compare ++ lit "` is invalid")))
  else
    match buildVersion s version with
    | Err err => (false, Some (Trace err))
    | Ok semVersion =>
        match buildVersion s compare with
        | Err err => (false, Some (Trace err))
        | Ok semCompare =>
            if major semVersion <? major semCompare then (false, None)
            else if major semVersion >? major semCompare then (true, None)
            else if minor semVersion <? minor semCompare then (false, None)
            else if minor semVersion >? minor semCompare then (true, None)
            else (revision semVersion >=? revision semCompare, None)
        end
    end.

(** SmallerThanOrEqual checks if the given version is smaller than or equal
    to the compare version. *)
Definition SmallerThanOrEqual (s : Semver) (version compare : str) : bool * option error :=
  if negb (Valid s version) then
    (false, Some (Errorf (lit "version `" ++ version ++ lit "` is invalid")))
  else if negb (Valid s compare) then
    (false, Some (Errorf (lit "compare `" ++ compare ++ lit "` is invalid")))
  else
    match buildVersion s version with
    | Err err => (false, Some (Trace err))
    | Ok semVersion =>
        match buildVersion s compare with
        | Err err => (false, Some (Trace err))
        | Ok semCompare =>
            if major semVersion >? major semCompare then (false, None)
            else if major semVersion <? major semCompare then (true, None)
            else if minor semVersion >? minor semCompare then (false, None)
            else if minor semVersion <? minor semCompare then (true, None)
            else (revision semVersion <=? revision semCompare, None)
        end
    end.

(** InRange checks if the version is between the given start and end
    versions. *)
Definition InRange (s : Semver) (version start end_ : str) : bool * option error :=
  match GreaterThanOrEqual s version start with
  | (_, Some err) => (false, Some (Trace err))
  | (greaterThanOrEqual, None) =>
      if negb (streq end_ []) then
        match SmallerThanOrEqual s version end_ with
        | (_, Some err) => (false, Some (Trace err))
        | (smallerThanOrEqual, None) => (greaterThanOrEqual && smallerThanOrEqual, None)
        end
      else (greaterThanOrEqual && true, None)
  end.

(** * Vocabulary of the statements *)

(** The largest [int]. *)
Definition maxInt : Z := 2 ^ 63 - 1.

(** The number a text of decimal digits denotes. *)
Definition decimalFrom (n : Z) (s : str) : Z :=
  fold_left (fun n c => n * 10 + strconv.digit c) s n.
Definition decimalValue (s : str) : Z := decimalFrom 0 s.

Definition allDigits (s : str) : bool := forallb isDigit s.

(** The longest prefix of digits, and what follows it. *)
Fixpoint digitsPrefix (s : str) : str :=
  match s with
  | c :: s' => if isDigit c then c :: digitsPrefix s' else []
  | [] => []
  end.

Fixpoint afterDigits (s : str) : str :=
  match s with
  | c :: s' => if isDigit c then afterDigits s' else s
  | [] => []
  end.

Definition startsWithDigit (s : str) : bool :=
  match s with
  | c :: _ => isDigit c
  | [] => false
  end.

(** Reading a text the way its core reads: a run of digits, a byte, a run of
    digits, a byte, a run of digits; what is left is the rest. *)
Definition scanCore (s : str) : list str * str :=
  let r1 := tl (afterDigits s) in
  let r2 := tl (afterDigits r1) in
  ([digitsPrefix s; digitsPrefix r1; digitsPrefix r2], afterDigits r2).

Definition coreSegments (s : str) : list str := fst (scanCore s).
Definition coreNumbers (s : str) : list Z := map decimalValue (coreSegments s).

(** Every core number is one an [int] holds. *)
Definition coreFits (s : str) : bool := forallb (fun n => n <=? maxInt) (coreNumbers s).

(** The core is directly followed by ["+"]: build metadata and no tag. *)
Definition plainBuild (s : str) : bool :=
  match snd (scanCore s) with
  | c :: _ => Ascii.eqb c "+"
  | [] => false
  end.

(** A zero with digits after it. *)
Definition leadingZero (seg : str) : bool :=
  match seg with
  | c :: _ :: _ => Ascii.eqb c "0"
  | _ => false
  end.

(** The text [buildVersion] splits on dots: the text before the first dash,
    or the whole text when it has none. *)
Definition coreOf (version : str) : str :=
  if strings.Contains version "-" then nth 0 (strings.SplitN version "-" 2) []
  else version.

(** The numbers of a parsed version, in the order they are compared. *)
Definition triple (v : semVersion) : list Z := [major v; minor v; revision v].

(** Lexicographic order of two parsed versions on (major, minor, revision). *)
Definition lexLe (v c : semVersion) : Prop :=
  major v < major c \/
  (major v = major c /\
   (minor v < minor c \/ (minor v = minor c /\ revision v <= revision c))).

(** The grammar of the specification, rule by rule, in the notation of
    [Regexp]; a string is in the grammar when [matches version] holds. *)
Module Grammar.

Definition digit : Regexp := CharClass [("0", "9")]%char.
Definition nonzero : Regexp := CharClass [("1", "9")]%char.
Definition letter : Regexp := CharClass [("a", "z"); ("A", "Z")]%char.
Definition alnumdash : Regexp :=
  Alternate digit (Alternate letter (Literal "-")).

Definition numeric : Regexp :=
  Alternate (Literal "0") (Concat nonzero (Star digit)).
Definition numeric_identifier : Regexp :=
  Alternate (Literal "0") (Concat nonzero (Star digit)).
Definition alnum_identifier : Regexp :=
  Concat (Star alnumdash)
    (Concat (Alternate letter (Literal "-")) (Star alnumdash)).
Definition identifier : Regexp := Alternate numeric_identifier alnum_identifier.
Definition prerelease : Regexp :=
  Concat identifier (Star (Concat (Literal ".") identifier)).
Definition buildmeta : Regexp :=
  Concat (Plus alnumdash) (Star (Concat (Literal ".") (Plus alnumdash))).
Definition core : Regexp :=
  Concat numeric (Concat (Literal ".") (Concat numeric (Concat (Literal ".") numeric))).
Definition version : Regexp :=
  Concat core
    (Concat (Quest (Concat (Literal "-") prerelease))
       (Quest (Concat (Literal "+") buildmeta))).

End Grammar.

(** Two expressions with the same language. *)
Definition sameLanguage (r r' : Regexp) : Prop :=
  forall s, matches r s <-> matches r' s.

(** The three-part text [a.b.c]. *)
Definition dotted (a b c : str) : str := a ++ "."%char :: b ++ "."%char :: c.

(** The text [buildVersion] keeps as the tag: what follows the first dash. *)
Definition tagOf (version : str) : str :=
  if strings.Contains version "-" then nth 1 (strings.SplitN version "-" 2) []
  else [].

(** The error [buildVersion] returns for a core of [n] parts. *)
Definition partsCountError (n : nat) : error :=
  Errorf (lit "versions should be 2 or 3 parts. Got " ++ formatInt n).

(** A core number as the pattern wants it: digits, at least one, and no zero
    before other digits. *)
Definition isNumeral (n : str) : bool :=
  match n with
  | [] => false
  | _ => allDigits n && negb (leadingZero n)
  end.

(** The bytes a version is written with. *)
Definition isLetter (c : ascii) : bool := between "a" "z" c || between "A" "Z" c.
Definition versionByte (c : ascii) : bool :=
  isDigit c || isLetter c || Ascii.eqb c "." || Ascii.eqb c "-" || Ascii.eqb c "+".

(** The bytes an expression can read. *)
Fixpoint reads (r : Regexp) (c : ascii) : bool :=
  match r with
  | NoMatch => false
  | EmptyMatch => false
  | Literal c' => Ascii.eqb c c'
  | CharClass ranges => inClass ranges c
  | Concat r1 r2 => reads r1 c || reads r2 c
  | Alternate r1 r2 => reads r1 c || reads r2 c
  | Star r1 => reads r1 c
  end.

(** * Properties *)

(** ** The matcher decides the language of the pattern *)

Section Matcher.

Lemma matches_nil_nullable r s : matches r s -> s = [] -> nullable r = true.
Proof.
  induction 1 as [ | | | r1 r2 s1 s2 _ IH1 _ IH2 | r1 r2 s _ IH | r1 r2 s _ IH
                 | | r s1 s2 _ _ _ _ ]; intros E; simpl; try discriminate; auto.
  - apply app_eq_nil in E as [-> ->]. now rewrite IH1, IH2.
  - now rewrite IH.
  - rewrite IH by assumption. apply orb_true_r.
Qed.

Lemma nullable_matches r : nullable r = true -> matches r [].
Proof.
  induction r; simpl; intros E; try discriminate.
  - constructor.
  - apply andb_true_iff in E as [E1 E2].
    change (@nil ascii) with (@nil ascii ++ []). constructor; auto.
  - apply orb_true_iff in E as [E | E]; [apply m_alt_l | apply m_alt_r]; auto.
  - constructor.
Qed.

Lemma step_sound c r : forall s, matches (step c r) s -> matches r (c :: s).
Proof.
  induction r as [ | | c' | ranges | r1 IH1 r2 IH2 | r1 IH1 r2 IH2 | r1 IH1 ];
    simpl; intros s H.
  - inversion H.
  - inversion H.
  - destruct (Ascii.eqb_spec c c') as [-> | _]; inversion H; subst. constructor.
  - destruct (inClass ranges c) eqn:E; inversion H; subst. now constructor.
  - assert (L : forall w, matches (Concat (step c r1) r2) w -> matches (Concat r1 r2) (c :: w)).
    { intros w Hw. inversion Hw; subst.
      change (c :: s1 ++ s2) with ((c :: s1) ++ s2). constructor; auto. }
    destruct (nullable r1) eqn:N.
    + inversion H; subst; auto.
      change (c :: s) with ([] ++ c :: s). constructor; auto using nullable_matches.
    + auto.
  - inversion H; subst; [apply m_alt_l | apply m_alt_r]; auto.
  - inversion H; subst.
    change (c :: s1 ++ s2) with ((c :: s1) ++ s2). constructor; auto.
Qed.

Lemma step_complete c r w :
  matches r w -> forall s, w = c :: s -> matches (step c r) s.
Proof.
  induction 1 as [ | c' | ranges c' E | r1 r2 s1 s2 H1 IH1 H2 IH2
                 | r1 r2 s0 _ IH | r1 r2 s0 _ IH
                 | | r s1 s2 H1 IH1 H2 IH2 ]; intros s Heq; simpl; try discriminate.
  - injection Heq as -> <-. rewrite Ascii.eqb_refl. constructor.
  - injection Heq as -> <-. rewrite E. constructor.
  - destruct s1 as [ | x s1'].
    + simpl in Heq. rewrite (matches_nil_nullable _ _ H1 eq_refl).
      apply m_alt_r. auto.
    + simpl in Heq. injection Heq as -> <-.
      assert (M : matches (Concat (step c r1) r2) (s1' ++ s2)) by (constructor; auto).
      destruct (nullable r1); [apply m_alt_l | ]; exact M.
  - apply m_alt_l. auto.
  - apply m_alt_r. auto.
  - destruct s1 as [ | x s1'].
    + simpl in Heq. apply IH2 in Heq. exact Heq.
    + simpl in Heq. injection Heq as -> <-. constructor; auto.
Qed.

Lemma run_matches r s : run r s = true <-> matches r s.
Proof.
  revert r. induction s as [ | c s IH]; intros r; simpl.
  - split; [apply nullable_matches | intros H; now apply matches_nil_nullable with (s := [])].
  - rewrite IH. split; [apply step_sound | intros H; now apply step_complete with (w := c :: s)].
Qed.

End Matcher.

(** ** Bytes *)

Lemma code_range c : 0 <= code c < 256.
Proof.
  unfold code. destruct c as [[] [] [] [] [] [] [] []]; vm_compute; split; congruence.
Qed.

Lemma isDigit_digit c : isDigit c = true -> 0 <= strconv.digit c <= 9.
Proof.
  unfold isDigit, between, strconv.digit. intros H.
  apply andb_true_iff in H as [H1 H2].
  apply Z.leb_le in H1, H2.
  change (code "0") with 48 in *. change (code "9") with 57 in H2. lia.
Qed.

Lemma isDigit_neq c x : isDigit c = true -> isDigit x = false -> c <> x.
Proof. intros H1 H2 ->. congruence. Qed.

Lemma allDigits_notin s x : allDigits s = true -> isDigit x = false -> ~ In x s.
Proof.
  unfold allDigits. intros H Hx Hin.
  rewrite forallb_forall in H. apply H in Hin. congruence.
Qed.

Lemma allDigits_app a b : allDigits (a ++ b) = allDigits a && allDigits b.
Proof. apply forallb_app. Qed.

(** ** Package [strings] *)

Section Strings.

Import strings.
Variable sep : ascii.

Lemma IndexByte_lower s : -1 <= IndexByte s sep.
Proof.
  induction s as [ | x s IH]; simpl; [lia | ].
  destruct (Ascii.eqb x sep); [lia | ].
  destruct (IndexByte s sep <? 0) eqn:E; [lia | apply Z.ltb_ge in E; lia].
Qed.

Lemma IndexByte_notin s : ~ In sep s -> IndexByte s sep = -1.
Proof.
  induction s as [ | x s IH]; simpl; intros H; [reflexivity | ].
  destruct (Ascii.eqb_spec x sep) as [-> | _]; [tauto | ].
  rewrite IH by tauto. reflexivity.
Qed.

Lemma IndexByte_first a b : ~ In sep a -> IndexByte (a ++ sep :: b) sep = len a.
Proof.
  unfold len. induction a as [ | x a IH]; simpl List.length; simpl app; intros H.
  - simpl. now rewrite Ascii.eqb_refl.
  - simpl. destruct (Ascii.eqb_spec x sep) as [-> | _]; [simpl in H; tauto | ].
    rewrite IH by (simpl in H; tauto).
    destruct (Z.of_nat (List.length a) <? 0) eqn:E; [apply Z.ltb_lt in E | ]; lia.
Qed.

Lemma Contains_notin s : ~ In sep s -> Contains s sep = false.
Proof. intros H. unfold Contains, Index. now rewrite IndexByte_notin. Qed.

Lemma Contains_first a b : ~ In sep a -> Contains (a ++ sep :: b) sep = true.
Proof.
  intros H. unfold Contains, Index. rewrite IndexByte_first by assumption.
  unfold len. apply Z.geb_le. lia.
Qed.

Lemma Count_bounds s : 0 <= Count s sep <= len s.
Proof.
  unfold len. induction s as [ | x s IH]; simpl Count; simpl List.length; [lia | ].
  destruct (Ascii.eqb x sep); lia.
Qed.

Lemma Count_notin s : ~ In sep s -> Count s sep = 0.
Proof.
  induction s as [ | x s IH]; simpl; intros H; [reflexivity | ].
  destruct (Ascii.eqb_spec x sep) as [-> | _]; [tauto | ].
  rewrite IH by tauto. reflexivity.
Qed.

Lemma Count_first a b : ~ In sep a -> Count (a ++ sep :: b) sep = 1 + Count b sep.
Proof.
  induction a as [ | x a IH]; simpl; intros H.
  - now rewrite Ascii.eqb_refl.
  - destruct (Ascii.eqb_spec x sep) as [-> | _]; [tauto | ].
    rewrite IH by tauto. reflexivity.
Qed.

Lemma splitLoop_notin n s : ~ In sep s -> splitLoop n s sep = [s].
Proof.
  intros H. destruct n; simpl; [reflexivity | ].
  unfold Index. now rewrite IndexByte_notin.
Qed.

Lemma splitLoop_first n a b :
  ~ In sep a -> splitLoop (S n) (a ++ sep :: b) sep = a :: splitLoop n b sep.
Proof.
  intros H. simpl. unfold Index. rewrite IndexByte_first by assumption.
  unfold len.
  destruct (Z.of_nat (List.length a) <? 0) eqn:E; [apply Z.ltb_lt in E; lia | ].
  rewrite Nat2Z.id.
  replace (Z.to_nat (Z.of_nat (List.length a) + 1)) with (List.length a + 1)%nat by lia.
  rewrite firstn_app, Nat.sub_diag, firstn_all. simpl firstn. rewrite app_nil_r.
  rewrite skipn_app, skipn_all2 by lia.
  replace (List.length a + 1 - List.length a)%nat with 1%nat by lia. reflexivity.
Qed.

(** [Split] cuts at every separator. *)
Lemma Split_eq s : Split s sep = splitLoop (Z.to_nat (Count s sep)) s sep.
Proof.
  unfold Split, genSplit. simpl.
  pose proof (Count_bounds s) as B.
  destruct (Count s sep + 1 >? len s + 1) eqn:E.
  - apply Z.gtb_lt in E. lia.
  - f_equal. lia.
Qed.

Lemma Split_notin s : ~ In sep s -> Split s sep = [s].
Proof. intros H. rewrite Split_eq. now apply splitLoop_notin. Qed.

Lemma Split_first a b : ~ In sep a -> Split (a ++ sep :: b) sep = a :: Split b sep.
Proof.
  intros H. rewrite !Split_eq, Count_first by assumption.
  pose proof (Count_bounds b) as B.
  replace (Z.to_nat (1 + Count b sep)) with (S (Z.to_nat (Count b sep))) by lia.
  now apply splitLoop_first.
Qed.

Lemma Split_not_nil s : Split s sep <> [].
Proof. rewrite Split_eq. destruct (Z.to_nat (Count s sep)); simpl; [ | destruct (_ <? _)]; discriminate. Qed.

Lemma SplitN2_first a b : ~ In sep a -> SplitN (a ++ sep :: b) sep 2 = [a; b].
Proof.
  intros H. unfold SplitN, genSplit. simpl.
  assert (L : len (a ++ sep :: b) >= 1).
  { unfold len. rewrite length_app. simpl. lia. }
  destruct (2 >? len (a ++ sep :: b) + 1) eqn:E; [apply Z.gtb_lt in E; lia | ].
  change (Z.to_nat (2 - 1)) with 1%nat.
  now rewrite splitLoop_first.
Qed.

End Strings.

(** ** Package [strconv] *)

Section Strconv.

Import strconv.

Lemma decimalFrom_cons n c s :
  decimalFrom n (c :: s) = decimalFrom (n * 10 + digit c) s.
Proof. reflexivity. Qed.

Lemma decimalFrom_grows s : forall n,
  allDigits s = true -> 0 <= n -> n <= decimalFrom n s.
Proof.
  induction s as [ | c s IH]; intros n D Hn; [simpl; lia | ].
  simpl in D. apply andb_true_iff in D as [Dc Ds].
  rewrite decimalFrom_cons. apply isDigit_digit in Dc.
  specialize (IH (n * 10 + digit c) Ds). lia.
Qed.

Lemma pow63 : 2 ^ 63 = 9223372036854775808.
Proof. reflexivity. Qed.

Lemma pow64 : 2 ^ 64 = 18446744073709551616.
Proof. reflexivity. Qed.

Lemma wrapInt_small n : - 2 ^ 63 <= n < 2 ^ 63 -> wrapInt n = n.
Proof.
  intros H. unfold wrapInt. rewrite pow63, pow64 in *.
  rewrite Z.mod_small by lia. lia.
Qed.

Lemma wrapU_small n : 0 <= n < 2 ^ 64 -> wrapU n = n.
Proof. intros H. unfold wrapU. now apply Z.mod_small. Qed.

Lemma atoiLoop_digits s : forall n,
  allDigits s = true -> 0 <= n -> decimalFrom n s <= maxInt ->
  atoiLoop s n = Some (decimalFrom n s).
Proof.
  induction s as [ | c s IH]; intros n D Hn Hmax; [reflexivity | ].
  simpl in D. apply andb_true_iff in D as [Dc Ds].
  rewrite decimalFrom_cons in *. simpl. rewrite Dc.
  pose proof (isDigit_digit _ Dc) as Hd.
  pose proof (decimalFrom_grows s (n * 10 + digit c) Ds ltac:(lia)) as G.
  unfold maxInt in Hmax.
  rewrite wrapInt_small by (rewrite pow63 in *; lia).
  apply IH; auto; lia.
Qed.

Lemma parseUintLoop_digits s : forall n,
  allDigits s = true -> 0 <= n -> decimalFrom n s <= maxInt ->
  parseUintLoop s n = inl (decimalFrom n s).
Proof.
  induction s as [ | c s IH]; intros n D Hn Hmax; [reflexivity | ].
  simpl in D. apply andb_true_iff in D as [Dc Ds].
  rewrite decimalFrom_cons in *. simpl parseUintLoop. rewrite Dc.
  pose proof (isDigit_digit _ Dc) as Hd.
  pose proof (decimalFrom_grows s (n * 10 + digit c) Ds ltac:(lia)) as G.
  unfold maxInt in Hmax. rewrite pow63 in Hmax.
  change ((2 ^ 64 - 1) / 10 + 1) with 1844674407370955162.
  change (2 ^ 64 - 1) with 18446744073709551615.
  destruct (n >=? 1844674407370955162) eqn:E1; [apply Z.geb_le in E1; lia | ].
  rewrite (wrapU_small (n * 10)) by (rewrite pow64; lia).
  rewrite wrapU_small by (rewrite pow64; lia).
  destruct (n * 10 + digit c <? n * 10) eqn:E2; [apply Z.ltb_lt in E2; lia | ].
  destruct (n * 10 + digit c >? 18446744073709551615) eqn:E3;
    [apply Z.gtb_lt in E3; lia | ].
  simpl. apply IH; auto; lia.
Qed.

Lemma isDigit_not_sign c :
  isDigit c = true -> Ascii.eqb c "-" = false /\ Ascii.eqb c "+" = false.
Proof.
  intros H. split; destruct (Ascii.eqb_spec c "-"%char), (Ascii.eqb_spec c "+"%char);
    subst; auto; discriminate.
Qed.

(** [Atoi] reads every text of digits whose number an [int] holds. *)
Lemma Atoi_digits s :
  s <> [] -> allDigits s = true -> decimalValue s <= maxInt ->
  Atoi s = Ok (decimalValue s).
Proof.
  intros Hne D Hmax. unfold Atoi.
  destruct s as [ | c s']; [congruence | ].
  assert (Dc : isDigit c = true) by (simpl in D; now apply andb_true_iff in D as [-> _]).
  destruct (isDigit_not_sign c Dc) as [Em Ep].
  destruct ((0 <? len (c :: s')) && (len (c :: s') <? 19)).
  - rewrite Em, Ep. simpl orb. cbv iota. simpl andb. cbv iota.
    unfold decimalValue in *. now rewrite atoiLoop_digits by (auto; lia).
  - unfold ParseInt. rewrite Em, Ep. simpl orb. cbv iota.
    unfold ParseUint. unfold decimalValue in *.
    rewrite parseUintLoop_digits by (auto; lia).
    unfold maxInt in Hmax. unfold intSize. change (2 ^ (64 - 1)) with (2 ^ 63).
    rewrite pow63 in *. simpl negb.
    destruct (decimalFrom 0 (c :: s') >=? 9223372036854775808) eqn:E;
      [apply Z.geb_le in E; lia | ].
    reflexivity.
Qed.

End Strconv.

(** ** The shape of a valid version *)

Section Shape.

Lemma inClass_digit c : inClass [("0", "9")]%char c = isDigit c.
Proof. unfold inClass. simpl. apply orb_false_r. Qed.

Lemma matches_star_class ranges s :
  matches (Star (CharClass ranges)) s -> forallb (inClass ranges) s = true.
Proof.
  intros H. remember (Star (CharClass ranges)) as r eqn:Er.
  induction H as [ | | | | | | | r0 s1 s2 H1 _ H2 IH2 ]; try discriminate; [reflexivity | ].
  injection Er as ->. inversion H1; subst. simpl.
  rewrite IH2 by reflexivity. now rewrite H0.
Qed.

Lemma matches_star_digits s : matches (Star reDigit) s -> allDigits s = true.
Proof.
  intros H. apply matches_star_class in H. unfold allDigits.
  rewrite <- H. clear H. induction s as [ | c s IH]; [reflexivity | ].
  cbn [forallb]. now rewrite IH, inClass_digit.
Qed.

Lemma nonzero_isDigit c : inClass [("1", "9")]%char c = true -> isDigit c = true.
Proof.
  unfold inClass, isDigit, between. simpl. rewrite orb_false_r.
  intros H. apply andb_true_iff in H as [H1 H2].
  apply Z.leb_le in H1, H2. apply andb_true_iff.
  split; apply Z.leb_le; change (code "0") with 48; change (code "1") with 49 in H1; lia.
Qed.

Lemma nonzero_not_zero c : inClass [("1", "9")]%char c = true -> Ascii.eqb c "0" = false.
Proof.
  intros H. destruct (Ascii.eqb_spec c "0"%char) as [-> | _]; [discriminate | reflexivity].
Qed.

(** A core number is a non-empty text of digits without a leading zero. *)
Lemma numeric_shape n :
  matches reNumeric n -> n <> [] /\ allDigits n = true /\ leadingZero n = false.
Proof.
  intros H. inversion H as [ | | | | r1 r2 s H1 | r1 r2 s H1 | | ]; subst.
  - inversion H1; subst. split; [discriminate | split; reflexivity].
  - inversion H1 as [ | | | r1 r2 s1 s2 Hc Hs | | | | ]; subst.
    inversion Hc as [ | | ranges c Hin | | | | | ]; subst.
    apply matches_star_digits in Hs. simpl.
    split; [discriminate | split].
    + now rewrite (nonzero_isDigit _ Hin).
    + destruct s2; [reflexivity | now apply nonzero_not_zero].
Qed.

Lemma suffix_head t :
  matches reSuffix t ->
  t = [] \/ (exists r, t = "-"%char :: r) \/ (exists r, t = "+"%char :: r).
Proof.
  intros H. inversion H as [ | | | r1 r2 s1 s2 Hp Hb | | | | ]; subst.
  inversion Hp as [ | | | | r1 r2 s Hp1 | r1 r2 s Hp1 | | ]; subst.
  - inversion Hp1 as [ | | | r1 r2 u1 u2 Hd _ | | | | ]; subst.
    inversion Hd; subst. right; left. eexists. reflexivity.
  - inversion Hp1; subst. simpl.
    inversion Hb as [ | | | | r1 r2 s Hb1 | r1 r2 s Hb1 | | ]; subst.
    + inversion Hb1 as [ | | | r1 r2 u1 u2 Hd _ | | | | ]; subst.
      inversion Hd; subst. right; right. eexists. reflexivity.
    + inversion Hb1; subst. now left.
Qed.

Lemma New_semver : New = Ok semver.
Proof. reflexivity. Qed.

Lemma Valid_matches s : Valid semver s = true <-> matches reSemver s.
Proof. unfold Valid, MatchString. simpl reValid. apply run_matches. Qed.

Lemma dotted_app a b c t :
  dotted a b c ++ t = a ++ "."%char :: b ++ "."%char :: c ++ t.
Proof. unfold dotted. rewrite <- app_assoc. simpl. now rewrite <- app_assoc. Qed.

(** A valid version is three core numbers between dots and a suffix. *)
Lemma Valid_shape s :
  Valid semver s = true <->
  exists a b c t,
    s = dotted a b c ++ t /\
    matches reNumeric a /\ matches reNumeric b /\ matches reNumeric c /\
    matches reSuffix t.
Proof.
  rewrite Valid_matches. split.
  - intros H. unfold reSemver in H.
    inversion H as [ | | | r1 r2 a s1 Ha H1 | | | | ]; subst.
    inversion H1 as [ | | | r1 r2 d1 s2 Hd1 H2 | | | | ]; subst.
    inversion Hd1; subst.
    inversion H2 as [ | | | r1 r2 b s3 Hb H3 | | | | ]; subst.
    inversion H3 as [ | | | r1 r2 d2 s4 Hd2 H4 | | | | ]; subst.
    inversion Hd2; subst.
    inversion H4 as [ | | | r1 r2 c t Hc Ht | | | | ]; subst.
    exists a, b, c, t. rewrite dotted_app. simpl. auto.
  - intros (a & b & c & t & -> & Ha & Hb & Hc & Ht).
    rewrite dotted_app. unfold reSemver.
    constructor; [assumption | ].
    change ("."%char :: b ++ "."%char :: c ++ t)
      with (["."%char] ++ b ++ ["."%char] ++ c ++ t).
    repeat (constructor; try assumption).
Qed.

End Shape.

(** ** Reading the core *)

Section Core.

Lemma scan_digits a r :
  allDigits a = true -> startsWithDigit r = false ->
  digitsPrefix (a ++ r) = a /\ afterDigits (a ++ r) = r.
Proof.
  intros D R. induction a as [ | c a IH]; simpl.
  - destruct r as [ | x r]; simpl in *; [auto | now rewrite R].
  - simpl in D. apply andb_true_iff in D as [Dc Da]. rewrite Dc.
    destruct (IH Da) as [-> ->]. auto.
Qed.

Lemma scanCore_dotted a b c t :
  allDigits a = true -> allDigits b = true -> allDigits c = true ->
  startsWithDigit t = false ->
  scanCore (dotted a b c ++ t) = ([a; b; c], t).
Proof.
  intros Da Db Dc Ht. rewrite dotted_app. unfold scanCore.
  destruct (scan_digits a ("."%char :: b ++ "."%char :: c ++ t) Da eq_refl) as [-> ->].
  simpl tl.
  destruct (scan_digits b ("."%char :: c ++ t) Db eq_refl) as [-> ->].
  simpl tl.
  destruct (scan_digits c t Dc Ht) as [-> ->].
  reflexivity.
Qed.

Lemma suffix_no_digit t : matches reSuffix t -> startsWithDigit t = false.
Proof.
  intros H. destruct (suffix_head t H) as [-> | [[r ->] | [r ->]]]; reflexivity.
Qed.

Lemma Split_dotted a b c :
  allDigits a = true -> allDigits b = true -> allDigits c = true ->
  strings.Split (dotted a b c) "." = [a; b; c].
Proof.
  intros Da Db Dc. unfold dotted.
  rewrite !Split_first, Split_notin; auto using allDigits_notin.
Qed.

Lemma dotted_no_dash a b c :
  allDigits a = true -> allDigits b = true -> allDigits c = true ->
  ~ In "-"%char (dotted a b c).
Proof.
  intros Da Db Dc. unfold dotted. rewrite in_app_iff. simpl. rewrite in_app_iff. simpl.
  pose proof (allDigits_notin a "-"%char Da eq_refl).
  pose proof (allDigits_notin b "-"%char Db eq_refl).
  pose proof (allDigits_notin c "-"%char Dc eq_refl).
  intros [ | [ | [ | [ | ]]]]; try tauto; discriminate.
Qed.

(** What [buildVersion] does once the text to split on dots is [a.b.c]. *)
Lemma parse_dotted a b c :
  a <> [] -> b <> [] -> c <> [] ->
  allDigits a = true -> allDigits b = true -> allDigits c = true ->
  decimalValue a <= maxInt -> decimalValue b <= maxInt -> decimalValue c <= maxInt ->
  forall s, buildVersion s (dotted a b c) =
    Ok {| major := decimalValue a; minor := decimalValue b;
          revision := decimalValue c; tag := [] |}.
Proof.
  intros Na Nb Nc Da Db Dc Ma Mb Mc s. unfold buildVersion.
  rewrite Contains_notin by now apply dotted_no_dash.
  rewrite Split_dotted by assumption.
  cbn [List.length nth Z.of_nat]. simpl negb. cbv iota.
  rewrite !Atoi_digits by assumption.
  reflexivity.
Qed.

Lemma parse_dotted_tag a b c r :
  a <> [] -> b <> [] -> c <> [] ->
  allDigits a = true -> allDigits b = true -> allDigits c = true ->
  decimalValue a <= maxInt -> decimalValue b <= maxInt -> decimalValue c <= maxInt ->
  forall s, buildVersion s (dotted a b c ++ "-"%char :: r) =
    Ok {| major := decimalValue a; minor := decimalValue b;
          revision := decimalValue c; tag := r |}.
Proof.
  intros Na Nb Nc Da Db Dc Ma Mb Mc s. unfold buildVersion.
  rewrite Contains_first by now apply dotted_no_dash.
  rewrite SplitN2_first by now apply dotted_no_dash.
  cbn [List.length nth Z.of_nat]. simpl negb. cbv iota.
  rewrite Split_dotted by assumption.
  cbn [List.length nth Z.of_nat]. simpl negb. cbv iota.
  rewrite !Atoi_digits by assumption.
  reflexivity.
Qed.

End Core.

(** ** Parsing a valid version *)

Section Parsing.

(** A valid version whose core numbers fit an [int] and whose core is not
    directly followed by build metadata parses, to its core numbers. *)
Lemma buildVersion_valid s version :
  Valid semver version = true ->
  plainBuild version = false ->
  coreFits version = true ->
  exists v, buildVersion s version = Ok v /\ triple v = coreNumbers version.
Proof.
  intros V P F. apply Valid_shape in V as (a & b & c & t & -> & Ha & Hb & Hc & Ht).
  apply numeric_shape in Ha as (Na & Da & _).
  apply numeric_shape in Hb as (Nb & Db & _).
  apply numeric_shape in Hc as (Nc & Dc & _).
  pose proof (scanCore_dotted a b c t Da Db Dc (suffix_no_digit t Ht)) as Sc.
  unfold coreFits, coreNumbers, coreSegments in *. unfold plainBuild in P.
  rewrite Sc in *. simpl in F, P.
  apply andb_true_iff in F as [Fa F]. apply andb_true_iff in F as [Fb F].
  apply andb_true_iff in F as [Fc _]. apply Z.leb_le in Fa, Fb, Fc.
  destruct (suffix_head t Ht) as [-> | [[r ->] | [r ->]]].
  - rewrite app_nil_r. rewrite parse_dotted by assumption. eexists. split; reflexivity.
  - rewrite parse_dotted_tag by assumption. eexists. split; reflexivity.
  - simpl in P. discriminate.
Qed.

End Parsing.

(** ** The comparisons *)

Section Comparisons.

(** The two comparisons once both operands are valid and parsed. *)
Lemma GreaterThanOrEqual_parsed s version compare v c :
  Valid s version = true -> Valid s compare = true ->
  buildVersion s version = Ok v -> buildVersion s compare = Ok c ->
  GreaterThanOrEqual s version compare =
    (if major v <? major c then false
     else if major v >? major c then true
     else if minor v <? minor c then false
     else if minor v >? minor c then true
     else revision v >=? revision c, None).
Proof.
  intros V1 V2 B1 B2. unfold GreaterThanOrEqual. rewrite V1, V2, B1, B2. simpl.
  repeat match goal with |- context [if ?b then _ else _] => destruct b end; reflexivity.
Qed.

Lemma SmallerThanOrEqual_parsed s version compare v c :
  Valid s version = true -> Valid s compare = true ->
  buildVersion s version = Ok v -> buildVersion s compare = Ok c ->
  SmallerThanOrEqual s version compare =
    (if major v >? major c then false
     else if major v <? major c then true
     else if minor v >? minor c then false
     else if minor v <? minor c then true
     else revision v <=? revision c, None).
Proof.
  intros V1 V2 B1 B2. unfold SmallerThanOrEqual. rewrite V1, V2, B1, B2. simpl.
  repeat match goal with |- context [if ?b then _ else _] => destruct b end; reflexivity.
Qed.

(** A comparison that returns no error had two valid operands that parse. *)
Lemma GreaterThanOrEqual_nil_inv s version compare :
  snd (GreaterThanOrEqual s version compare) = None ->
  exists v c,
    Valid s version = true /\ Valid s compare = true /\
    buildVersion s version = Ok v /\ buildVersion s compare = Ok c.
Proof.
  unfold GreaterThanOrEqual.
  destruct (Valid s version); simpl; [ | discriminate].
  destruct (Valid s compare); simpl; [ | discriminate].
  destruct (buildVersion s version) as [v | e]; simpl; [ | discriminate].
  destruct (buildVersion s compare) as [c | e]; simpl; [ | discriminate].
  intros _. exists v, c. auto.
Qed.

Lemma SmallerThanOrEqual_nil_inv s version compare :
  snd (SmallerThanOrEqual s version compare) = None ->
  exists v c,
    Valid s version = true /\ Valid s compare = true /\
    buildVersion s version = Ok v /\ buildVersion s compare = Ok c.
Proof.
  unfold SmallerThanOrEqual.
  destruct (Valid s version); simpl; [ | discriminate].
  destruct (Valid s compare); simpl; [ | discriminate].
  destruct (buildVersion s version) as [v | e]; simpl; [ | discriminate].
  destruct (buildVersion s compare) as [c | e]; simpl; [ | discriminate].
  intros _. exists v, c. auto.
Qed.

(** The boolean of the two cascades, as the order on the numbers. *)
Lemma ge_cascade v c :
  (if major v <? major c then false
   else if major v >? major c then true
   else if minor v <? minor c then false
   else if minor v >? minor c then true
   else revision v >=? revision c) = true <-> lexLe c v.
Proof.
  unfold lexLe.
  destruct (major v <? major c) eqn:E1; [apply Z.ltb_lt in E1 | apply Z.ltb_ge in E1].
  { split; [discriminate | lia]. }
  destruct (major v >? major c) eqn:E2; [apply Z.gtb_lt in E2 | rewrite Z.gtb_ltb in E2; apply Z.ltb_ge in E2].
  { split; [lia | reflexivity]. }
  destruct (minor v <? minor c) eqn:E3; [apply Z.ltb_lt in E3 | apply Z.ltb_ge in E3].
  { split; [discriminate | lia]. }
  destruct (minor v >? minor c) eqn:E4; [apply Z.gtb_lt in E4 | rewrite Z.gtb_ltb in E4; apply Z.ltb_ge in E4].
  { split; [lia | reflexivity]. }
  rewrite Z.geb_le. lia.
Qed.

Lemma le_cascade v c :
  (if major v >? major c then false
   else if major v <? major c then true
   else if minor v >? minor c then false
   else if minor v <? minor c then true
   else revision v <=? revision c) = true <-> lexLe v c.
Proof.
  unfold lexLe.
  destruct (major v >? major c) eqn:E2; [apply Z.gtb_lt in E2 | rewrite Z.gtb_ltb in E2; apply Z.ltb_ge in E2].
  { split; [discriminate | lia]. }
  destruct (major v <? major c) eqn:E1; [apply Z.ltb_lt in E1 | apply Z.ltb_ge in E1].
  { split; [lia | reflexivity]. }
  destruct (minor v >? minor c) eqn:E4; [apply Z.gtb_lt in E4 | rewrite Z.gtb_ltb in E4; apply Z.ltb_ge in E4].
  { split; [discriminate | lia]. }
  destruct (minor v <? minor c) eqn:E3; [apply Z.ltb_lt in E3 | apply Z.ltb_ge in E3].
  { split; [lia | reflexivity]. }
  rewrite Z.leb_le. lia.
Qed.

(** [InRange] without an upper bound, and with one. *)
Lemma InRange_empty_end s version start :
  InRange s version start [] =
    (fst (GreaterThanOrEqual s version start),
     option_map Trace (snd (GreaterThanOrEqual s version start))).
Proof.
  unfold InRange. simpl streq. simpl negb. cbv iota.
  destruct (GreaterThanOrEqual s version start) as [g [e | ]] eqn:G; simpl.
  - f_equal. unfold GreaterThanOrEqual in G.
    destruct (Valid s version); simpl in G; [ | now injection G as <- _].
    destruct (Valid s start); simpl in G; [ | now injection G as <- _].
    destruct (buildVersion s version) as [v | e1]; [ | now injection G as <- _].
    destruct (buildVersion s start) as [c | e1]; [ | now injection G as <- _].
    repeat match type of G with context [if ?b then _ else _] => destruct b end;
      discriminate.
  - now rewrite andb_true_r.
Qed.

Lemma InRange_nonempty_end s version start end_ :
  end_ <> [] ->
  InRange s version start end_ =
    match snd (GreaterThanOrEqual s version start),
          snd (SmallerThanOrEqual s version end_) with
    | Some err, _ => (false, Some (Trace err))
    | None, Some err => (false, Some (Trace err))
    | None, None =>
        (fst (GreaterThanOrEqual s version start)
         && fst (SmallerThanOrEqual s version end_), None)
    end.
Proof.
  intros Hne. unfold InRange.
  assert (E : streq end_ [] = false) by (destruct end_; [congruence | reflexivity]).
  rewrite E. simpl negb. cbv iota.
  destruct (GreaterThanOrEqual s version start) as [g [e | ]]; simpl; [reflexivity | ].
  destruct (SmallerThanOrEqual s version end_) as [l [e | ]]; reflexivity.
Qed.

End Comparisons.

(** ** The pattern and the grammar of the specification *)

Section Languages.

Lemma sameLanguage_refl r : sameLanguage r r.
Proof. intros s. reflexivity. Qed.

Lemma sameLanguage_sym r r' : sameLanguage r r' -> sameLanguage r' r.
Proof. intros H s. symmetry. apply H. Qed.

Lemma sameLanguage_trans r1 r2 r3 :
  sameLanguage r1 r2 -> sameLanguage r2 r3 -> sameLanguage r1 r3.
Proof. intros H1 H2 s. rewrite (H1 s). apply H2. Qed.

Lemma Concat_sub r1 r2 r1' r2' s :
  (forall w, matches r1 w -> matches r1' w) ->
  (forall w, matches r2 w -> matches r2' w) ->
  matches (Concat r1 r2) s -> matches (Concat r1' r2') s.
Proof. intros H1 H2 H. inversion H; subst. constructor; auto. Qed.

Lemma Alternate_sub r1 r2 r1' r2' s :
  (forall w, matches r1 w -> matches r1' w) ->
  (forall w, matches r2 w -> matches r2' w) ->
  matches (Alternate r1 r2) s -> matches (Alternate r1' r2') s.
Proof. intros H1 H2 H. inversion H; subst; [apply m_alt_l | apply m_alt_r]; auto. Qed.

Lemma Star_sub r r' s :
  (forall w, matches r w -> matches r' w) ->
  matches (Star r) s -> matches (Star r') s.
Proof.
  intros Hsub H. remember (Star r) as q eqn:Eq.
  induction H as [ | | | | | | | r0 s1 s2 H1 _ H2 IH2 ]; try discriminate.
  - constructor.
  - injection Eq as ->. constructor; auto.
Qed.

Lemma Concat_same r1 r2 r1' r2' :
  sameLanguage r1 r1' -> sameLanguage r2 r2' ->
  sameLanguage (Concat r1 r2) (Concat r1' r2').
Proof.
  intros H1 H2 s. split; apply Concat_sub; intros w; try apply H1; apply H2.
Qed.

Lemma Alternate_same r1 r2 r1' r2' :
  sameLanguage r1 r1' -> sameLanguage r2 r2' ->
  sameLanguage (Alternate r1 r2) (Alternate r1' r2').
Proof.
  intros H1 H2 s. split; apply Alternate_sub; intros w; try apply H1; apply H2.
Qed.

Lemma Star_same r r' : sameLanguage r r' -> sameLanguage (Star r) (Star r').
Proof. intros H s. split; apply Star_sub; intros w; apply H. Qed.

Lemma Concat_assoc r1 r2 r3 :
  sameLanguage (Concat (Concat r1 r2) r3) (Concat r1 (Concat r2 r3)).
Proof.
  intros s. split; intros H.
  - inversion H as [ | | | ? ? s12 s3 H12 H3 | | | | ]; subst.
    inversion H12; subst. rewrite <- app_assoc. repeat constructor; auto.
  - inversion H as [ | | | ? ? s1 s23 H1 H23 | | | | ]; subst.
    inversion H23; subst. rewrite app_assoc. repeat constructor; auto.
Qed.

Lemma Alternate_assoc r1 r2 r3 :
  sameLanguage (Alternate (Alternate r1 r2) r3) (Alternate r1 (Alternate r2 r3)).
Proof.
  intros s. split; intros H.
  - inversion H as [ | | | | ? ? ? H1 | ? ? ? H1 | | ]; subst.
    + inversion H1; subst; [apply m_alt_l | apply m_alt_r, m_alt_l]; auto.
    + apply m_alt_r, m_alt_r; auto.
  - inversion H as [ | | | | ? ? ? H1 | ? ? ? H1 | | ]; subst.
    + apply m_alt_l, m_alt_l; auto.
    + inversion H1; subst; [apply m_alt_l, m_alt_r | apply m_alt_r]; auto.
Qed.

Lemma code_inj c c' : code c = code c' -> c = c'.
Proof.
  unfold code. intros H. apply N2Z.inj in H.
  rewrite <- (ascii_N_embedding c), <- (ascii_N_embedding c'). now rewrite H.
Qed.

Lemma between_same c x : between c c x = true <-> x = c.
Proof.
  unfold between. rewrite andb_true_iff, !Z.leb_le. split.
  - intros [H1 H2]. apply code_inj. lia.
  - intros ->. lia.
Qed.

Lemma matches_class ranges s :
  matches (CharClass ranges) s <-> exists c, s = [c] /\ inClass ranges c = true.
Proof.
  split.
  - intros H. inversion H; subst. eauto.
  - intros (c & -> & H). now constructor.
Qed.

Lemma matches_concat r1 r2 s :
  matches (Concat r1 r2) s <->
  exists s1 s2, s = s1 ++ s2 /\ matches r1 s1 /\ matches r2 s2.
Proof.
  split.
  - intros H. inversion H; subst. eauto.
  - intros (s1 & s2 & -> & H1 & H2). now constructor.
Qed.

Lemma matches_literal c s : matches (Literal c) s <-> s = [c].
Proof. split; [intros H; now inversion H | intros ->; constructor]. Qed.

Lemma matches_star_class_iff ranges s :
  matches (Star (CharClass ranges)) s <-> forallb (inClass ranges) s = true.
Proof.
  split; [apply matches_star_class | ].
  induction s as [ | c s IH]; simpl; intros H; [constructor | ].
  apply andb_true_iff in H as [Hc Hs].
  change (c :: s) with ([c] ++ s). constructor; [now constructor | auto].
Qed.

Lemma letterdash_same :
  sameLanguage (Alternate Grammar.letter (Literal "-")) reLetterDash.
Proof.
  intros s. unfold Grammar.letter, reLetterDash. rewrite matches_class. split.
  - intros H. inversion H as [ | | | | ? ? ? H1 | ? ? ? H1 | | ]; subst.
    + apply matches_class in H1 as (c & -> & Hc). exists c. split; [reflexivity | ].
      unfold inClass in *. simpl in *. rewrite !orb_false_r in *.
      rewrite orb_assoc, Hc. reflexivity.
    + apply matches_literal in H1 as ->. eexists. split; reflexivity.
  - intros (c & -> & Hc). unfold inClass in Hc. simpl in Hc.
    rewrite orb_false_r, orb_assoc in Hc. apply orb_true_iff in Hc as [Hc | Hc].
    + apply m_alt_l, matches_class. exists c. split; [reflexivity | ].
      unfold inClass. simpl. now rewrite orb_false_r.
    + apply between_same in Hc as ->. apply m_alt_r. constructor.
Qed.

Lemma inClass_alnumdash c :
  inClass [("0", "9"); ("a", "z"); ("A", "Z"); ("-", "-")]%char c
  = isDigit c || inClass [("a", "z"); ("A", "Z"); ("-", "-")]%char c.
Proof. reflexivity. Qed.

Lemma alnumdash_same : sameLanguage Grammar.alnumdash reAlnumDash.
Proof.
  intros s. unfold Grammar.alnumdash, reAlnumDash. rewrite matches_class. split.
  - intros H. inversion H as [ | | | | ? ? ? H1 | ? ? ? H1 | | ]; subst.
    + apply matches_class in H1 as (c & -> & Hc). exists c. split; [reflexivity | ].
      rewrite inClass_alnumdash. rewrite inClass_digit in Hc. now rewrite Hc.
    + apply letterdash_same, matches_class in H1 as (c & -> & Hc).
      exists c. split; [reflexivity | ].
      rewrite inClass_alnumdash, Hc. apply orb_true_r.
  - intros (c & -> & Hc). rewrite inClass_alnumdash in Hc.
    apply orb_true_iff in Hc as [Hc | Hc].
    + apply m_alt_l, matches_class. exists c. now rewrite inClass_digit.
    + apply m_alt_r, letterdash_same, matches_class. eauto.
Qed.

(** Digits, a letter or a dash, then letters, digits and dashes: the same
    texts as letters, digits and dashes around a letter or a dash. *)
Lemma alnum_identifier_same :
  sameLanguage
    (Concat (Star reAlnumDash) (Concat reLetterDash (Star reAlnumDash)))
    (Concat (Star reDigit) (Concat reLetterDash (Star reAlnumDash))).
Proof.
  intros s. split.
  - intros H. inversion H as [ | | | ? ? pre s2 Hpre H2 | | | | ]; subst. clear H.
    inversion H2 as [ | | | ? ? s1 rest Hc Hrest | | | | ]; subst. clear H2.
    apply matches_class in Hc as (c & -> & Hc).
    apply matches_star_class_iff in Hpre, Hrest.
    revert Hpre. induction pre as [ | x pre IH]; intros Hpre.
    + apply (m_concat _ _ [] ([c] ++ rest)); [constructor | ].
      apply m_concat; [now constructor | now apply matches_star_class_iff].
    + cbn [forallb] in Hpre. apply andb_true_iff in Hpre as [Hx Hpre].
      specialize (IH Hpre). rewrite inClass_alnumdash in Hx.
      destruct (isDigit x) eqn:Dx.
      * apply matches_concat in IH as (ds & s2 & E & Hds & H2).
        cbn [app] in *. rewrite E.
        apply (m_concat _ _ (x :: ds) s2); [ | assumption].
        apply (m_star_app _ [x] ds); [ | assumption].
        constructor. now rewrite inClass_digit.
      * simpl in Hx.
        apply (m_concat _ _ [] ([x] ++ pre ++ [c] ++ rest)); [constructor | ].
        apply m_concat; [now constructor | ].
        apply matches_star_class_iff. rewrite forallb_app, Hpre.
        cbn [app forallb andb].
        rewrite inClass_alnumdash, Hc, orb_true_r. exact Hrest.
  - apply Concat_sub; [ | auto].
    intros w Hw. apply matches_star_class_iff. apply matches_star_digits in Hw.
    unfold allDigits in Hw. rewrite forallb_forall in *.
    intros c Hin. rewrite inClass_alnumdash, (Hw c Hin). reflexivity.
Qed.

Lemma identifier_same : sameLanguage Grammar.identifier reIdentifier.
Proof.
  unfold Grammar.identifier, Grammar.numeric_identifier, Grammar.alnum_identifier,
    reIdentifier.
  eapply sameLanguage_trans; [apply Alternate_assoc | ].
  apply Alternate_same; [apply sameLanguage_refl | ].
  apply Alternate_same; [apply sameLanguage_refl | ].
  eapply sameLanguage_trans; [ | apply alnum_identifier_same].
  apply Concat_same; [apply Star_same, alnumdash_same | ].
  apply Concat_same; [apply letterdash_same | apply Star_same, alnumdash_same].
Qed.

Lemma prerelease_same : sameLanguage Grammar.prerelease rePrerelease.
Proof.
  apply Concat_same; [apply identifier_same | ].
  apply Star_same, Concat_same; [apply sameLanguage_refl | apply identifier_same].
Qed.

Lemma buildmeta_same : sameLanguage Grammar.buildmeta reBuild.
Proof.
  assert (P : sameLanguage (Plus Grammar.alnumdash) (Plus reAlnumDash)).
  { apply Concat_same; [ | apply Star_same]; apply alnumdash_same. }
  apply Concat_same; [exact P | ].
  apply Star_same, Concat_same; [apply sameLanguage_refl | exact P].
Qed.

(** The pattern of [New] and the grammar have the same language. *)
Lemma version_same : sameLanguage Grammar.version reSemver.
Proof.
  unfold Grammar.version, Grammar.core, reSemver.
  eapply sameLanguage_trans; [apply Concat_assoc | ].
  apply Concat_same; [apply sameLanguage_refl | ].
  eapply sameLanguage_trans; [apply Concat_assoc | ].
  apply Concat_same; [apply sameLanguage_refl | ].
  eapply sameLanguage_trans; [apply Concat_assoc | ].
  apply Concat_same; [apply sameLanguage_refl | ].
  eapply sameLanguage_trans; [apply Concat_assoc | ].
  apply Concat_same; [apply sameLanguage_refl | ].
  apply Concat_same; [apply sameLanguage_refl | ].
  apply Concat_same; apply Alternate_same; try apply sameLanguage_refl;
    (apply Concat_same; [apply sameLanguage_refl | ]).
  - apply prerelease_same.
  - apply buildmeta_same.
Qed.

End Languages.

(** ** The core that [buildVersion] splits *)

Section CoreOf.

Import strings.

Lemma first_cut (sep : ascii) s :
  In sep s -> exists a b, s = a ++ sep :: b /\ ~ In sep a.
Proof.
  induction s as [ | x s IH]; intros H; [destruct H | ].
  destruct (ascii_dec x sep) as [-> | Hne].
  - exists [], s. split; [reflexivity | intros []].
  - destruct H as [H | H]; [contradiction | ].
    destruct (IH H) as (a & b & -> & Ha).
    exists (x :: a), b. split; [reflexivity | ].
    intros [E | E]; [congruence | contradiction].
Qed.

Lemma Contains_In (sep : ascii) s : Contains s sep = true -> In sep s.
Proof.
  intros H. destruct (in_dec ascii_dec sep s) as [Hin | Hnin]; [assumption | ].
  rewrite Contains_notin in H by assumption. discriminate.
Qed.

Lemma coreOf_cut a b : ~ In "-"%char a -> coreOf (a ++ "-"%char :: b) = a.
Proof.
  intros H. unfold coreOf.
  now rewrite Contains_first, SplitN2_first by assumption.
Qed.

Lemma coreOf_plain s : ~ In "-"%char s -> coreOf s = s.
Proof. intros H. unfold coreOf. now rewrite Contains_notin by assumption. Qed.

Lemma coreOf_app x y : ~ In "-"%char x -> coreOf (x ++ y) = x ++ coreOf y.
Proof.
  intros Hx. destruct (in_dec ascii_dec "-"%char y) as [Hin | Hnin].
  - destruct (first_cut _ _ Hin) as (a & b & -> & Ha).
    rewrite coreOf_cut by assumption.
    rewrite app_assoc. apply coreOf_cut.
    rewrite in_app_iff. tauto.
  - rewrite !coreOf_plain; auto. rewrite in_app_iff. tauto.
Qed.

(** The core of a valid version has at least three parts. *)
Lemma valid_core_parts version :
  Valid semver version = true ->
  (3 <= List.length (Split (coreOf version) "."))%nat.
Proof.
  intros V. apply Valid_shape in V as (a & b & c & t & -> & Ha & Hb & Hc & Ht).
  apply numeric_shape in Ha as (_ & Da & _).
  apply numeric_shape in Hb as (_ & Db & _).
  apply numeric_shape in Hc as (_ & Dc & _).
  rewrite coreOf_app by now apply dotted_no_dash.
  rewrite dotted_app.
  rewrite !Split_first by (apply allDigits_notin; auto).
  pose proof (Split_not_nil "."%char (c ++ coreOf t)) as N.
  destruct (Split (c ++ coreOf t) "."); [congruence | simpl; lia].
Qed.

(** No valid version starts a core segment with a zero and more digits. *)
Lemma valid_no_leadingZero version :
  Valid semver version = true ->
  forallb (fun seg => negb (leadingZero seg)) (coreSegments version) = true.
Proof.
  intros V. apply Valid_shape in V as (a & b & c & t & -> & Ha & Hb & Hc & Ht).
  apply numeric_shape in Ha as (_ & Da & La).
  apply numeric_shape in Hb as (_ & Db & Lb).
  apply numeric_shape in Hc as (_ & Dc & Lc).
  unfold coreSegments.
  rewrite (scanCore_dotted a b c t Da Db Dc (suffix_no_digit t Ht)).
  simpl. now rewrite La, Lb, Lc.
Qed.

(** [buildVersion] from the parts of the core on. *)
Lemma buildVersion_parts s version :
  let n := List.length (Split (coreOf version) ".") in
  (n <> 2%nat /\ n <> 3%nat ->
   buildVersion s version
   = Err (Errorf (lit "versions should be 2 or 3 parts. Got " ++ formatInt n))) /\
  (n = 2%nat \/ n = 3%nat ->
   forall message, buildVersion s version <> Err (Errorf message)).
Proof.
  assert (G : forall (v0 : semVersion) core,
    let n := List.length (Split core ".") in
    let r :=
      let versionParts := Split core "." in
      let versionPartsLength := Z.of_nat (List.length versionParts) in
      if negb (versionPartsLength =? 2) && negb (versionPartsLength =? 3) then
        Err (Errorf (lit "versions should be 2 or 3 parts. Got "
                       ++ formatInt (List.length versionParts)))
      else
        match strconv.Atoi (nth 0 versionParts []) with
        | Err err => Err (Trace err)
        | Ok n =>
            let semVersion := setMajor v0 n in
            match strconv.Atoi (nth 1 versionParts []) with
            | Err err => Err (Trace err)
            | Ok n =>
                let semVersion := setMinor semVersion n in
                if versionPartsLength =? exptectedPartsWithRevision then
                  match strconv.Atoi (nth 2 versionParts []) with
                  | Err err => Err (Trace err)
                  | Ok n => Ok (setRevision semVersion n)
                  end
                else Ok semVersion
            end
        end in
    (n <> 2%nat /\ n <> 3%nat ->
     r = Err (Errorf (lit "versions should be 2 or 3 parts. Got " ++ formatInt n))) /\
    (n = 2%nat \/ n = 3%nat -> forall message, r <> Err (Errorf message))).
  { intros v0 core. cbv zeta.
    set (parts := Split core ".").
    destruct (Z.of_nat (List.length parts) =? 2) eqn:E2;
      [apply Z.eqb_eq in E2 | apply Z.eqb_neq in E2];
      (destruct (Z.of_nat (List.length parts) =? 3) eqn:E3;
       [apply Z.eqb_eq in E3 | apply Z.eqb_neq in E3]); cbn [negb andb].
    - lia.
    - split; [lia | ]. intros _ message.
      unfold exptectedPartsWithRevision. rewrite (proj2 (Z.eqb_neq _ _) E3).
      destruct (strconv.Atoi (nth 0 parts [])); [ | discriminate].
      destruct (strconv.Atoi (nth 1 parts [])); discriminate.
    - split; [lia | ]. intros _ message.
      unfold exptectedPartsWithRevision. rewrite (proj2 (Z.eqb_eq _ _) E3).
      destruct (strconv.Atoi (nth 0 parts [])); [ | discriminate].
      destruct (strconv.Atoi (nth 1 parts [])); [ | discriminate].
      destruct (strconv.Atoi (nth 2 parts [])); discriminate.
    - split; [reflexivity | lia]. }
  unfold buildVersion, coreOf.
  destruct (Contains version "-") eqn:C.
  - apply Contains_In in C. destruct (first_cut _ _ C) as (a & b & -> & Ha).
    rewrite SplitN2_first by assumption.
    cbn [List.length nth Z.of_nat]. simpl negb. cbv iota. apply G.
  - apply G.
Qed.

End CoreOf.

(** * The claims *)

(** C1 (as amended).  Every string that [Valid] accepts, whose three core
    numbers are each at most the largest [int] and whose core is not directly
    followed by a [+], is parsed by [buildVersion] without error, to those
    core numbers; with two such operands [GreaterThanOrEqual] and
    [SmallerThanOrEqual] return no error, so none of their parse-error
    branches is taken. *)
Theorem valid_versions_parse (version compare : str) :
  Valid semver version = true -> Valid semver compare = true ->
  plainBuild version = false -> plainBuild compare = false ->
  coreFits version = true -> coreFits compare = true ->
  (exists v, buildVersion semver version = Ok v /\ triple v = coreNumbers version) /\
  (exists c, buildVersion semver compare = Ok c /\ triple c = coreNumbers compare) /\
  snd (GreaterThanOrEqual semver version compare) = None /\
  snd (SmallerThanOrEqual semver version compare) = None.
Proof.
  intros V1 V2 P1 P2 F1 F2.
  destruct (buildVersion_valid semver version V1 P1 F1) as (v & Bv & Tv).
  destruct (buildVersion_valid semver compare V2 P2 F2) as (c & Bc & Tc).
  split; [now exists v | ]. split; [now exists c | ].
  rewrite (GreaterThanOrEqual_parsed _ _ _ v c), (SmallerThanOrEqual_parsed _ _ _ v c)
    by assumption.
  split; reflexivity.
Qed.

Lemma valid_versions_parse_witness :
  (exists v, buildVersion semver "1.2.3-rc.1+build.5" = Ok v /\
             triple v = coreNumbers "1.2.3-rc.1+build.5") /\
  (exists c, buildVersion semver "9223372036854775807.0.10" = Ok c /\
             triple c = coreNumbers "9223372036854775807.0.10") /\
  snd (GreaterThanOrEqual semver "1.2.3-rc.1+build.5" "9223372036854775807.0.10") = None /\
  snd (SmallerThanOrEqual semver "1.2.3-rc.1+build.5" "9223372036854775807.0.10") = None.
Proof.
  apply (valid_versions_parse "1.2.3-rc.1+build.5" "9223372036854775807.0.10");
    vm_compute; reflexivity.
Defined.

(** C1 as stated fails: both strings below are valid, and [buildVersion]
    returns an error on each, the first for a core number no [int] holds, the
    second for build metadata that directly follows the core. *)
Lemma valid_versions_parse_counterexample :
  (Valid semver "99999999999999999999.0.0" = true /\
   buildVersion semver "99999999999999999999.0.0"
   = Err (Trace (NumError "Atoi" "99999999999999999999" ErrRange)) /\
   snd (GreaterThanOrEqual semver "99999999999999999999.0.0" "99999999999999999999.0.0")
   <> None) /\
  (Valid semver "1.2.3+build" = true /\
   buildVersion semver "1.2.3+build"
   = Err (Trace (NumError "Atoi" "3+build" ErrSyntax)) /\
   snd (GreaterThanOrEqual semver "1.2.3+build" "1.2.3+build") <> None).
Proof.
  repeat split; try (vm_compute; reflexivity); vm_compute; discriminate.
Qed.

(** C2.  For two valid strings that both parse, [GreaterThanOrEqual] returns
    no error and the boolean of the lexicographic comparison of (major, minor,
    revision): where the majors differ, whether the major of [version] is the
    greater; else where the minors differ, whether its minor is the greater;
    else whether its revision is at least the other. *)
Theorem GreaterThanOrEqual_lexicographic (version compare : str) (v c : semVersion) :
  Valid semver version = true -> Valid semver compare = true ->
  buildVersion semver version = Ok v -> buildVersion semver compare = Ok c ->
  GreaterThanOrEqual semver version compare =
    (if negb (major v =? major c) then major v >? major c
     else if negb (minor v =? minor c) then minor v >? minor c
     else revision v >=? revision c, None) /\
  (fst (GreaterThanOrEqual semver version compare) = true <-> lexLe c v).
Proof.
  intros V1 V2 B1 B2.
  rewrite (GreaterThanOrEqual_parsed _ _ _ v c) by assumption. split.
  - f_equal.
    destruct (major v =? major c) eqn:E1; [apply Z.eqb_eq in E1 | apply Z.eqb_neq in E1];
      destruct (major v <? major c) eqn:E2;
      try apply Z.ltb_lt in E2; try apply Z.ltb_ge in E2; try lia; simpl.
    + rewrite E1, Z.gtb_ltb, Z.ltb_irrefl.
      destruct (minor v =? minor c) eqn:E3; [apply Z.eqb_eq in E3 | apply Z.eqb_neq in E3];
        destruct (minor v <? minor c) eqn:E4;
        try apply Z.ltb_lt in E4; try apply Z.ltb_ge in E4; try lia; simpl.
      * now rewrite E3, Z.gtb_ltb, Z.ltb_irrefl.
      * symmetry. rewrite Z.gtb_ltb. apply Z.ltb_ge. lia.
      * destruct (minor v >? minor c) eqn:E5; [reflexivity | ].
        rewrite Z.gtb_ltb in E5. apply Z.ltb_ge in E5. lia.
    + symmetry. rewrite Z.gtb_ltb. apply Z.ltb_ge. lia.
    + destruct (major v >? major c) eqn:E5; [reflexivity | ].
      rewrite Z.gtb_ltb in E5. apply Z.ltb_ge in E5. lia.
  - simpl fst. apply ge_cascade.
Qed.

Lemma GreaterThanOrEqual_lexicographic_witness :
  GreaterThanOrEqual semver "2.12.13" "1.33.44-rc.1" = (true, None) /\
  (fst (GreaterThanOrEqual semver "2.12.13" "1.33.44-rc.1") = true <->
   lexLe {| major := 1; minor := 33; revision := 44; tag := "rc.1" |}
         {| major := 2; minor := 12; revision := 13; tag := [] |}).
Proof.
  apply (GreaterThanOrEqual_lexicographic "2.12.13" "1.33.44-rc.1"
           {| major := 2; minor := 12; revision := 13; tag := [] |}
           {| major := 1; minor := 33; revision := 44; tag := "rc.1" |});
    vm_compute; reflexivity.
Defined.

(** C3.  For two valid strings that both parse, [SmallerThanOrEqual] returns
    no error and the mirror image: false where the major of [version] is
    strictly greater, true where it is strictly smaller, else the same on the
    minors, else whether its revision is at most the other. *)
Theorem SmallerThanOrEqual_lexicographic (version compare : str) (v c : semVersion) :
  Valid semver version = true -> Valid semver compare = true ->
  buildVersion semver version = Ok v -> buildVersion semver compare = Ok c ->
  SmallerThanOrEqual semver version compare =
    (if major v >? major c then false
     else if major v <? major c then true
     else if minor v >? minor c then false
     else if minor v <? minor c then true
     else revision v <=? revision c, None) /\
  (fst (SmallerThanOrEqual semver version compare) = true <-> lexLe v c).
Proof.
  intros V1 V2 B1 B2.
  rewrite (SmallerThanOrEqual_parsed _ _ _ v c) by assumption.
  split; [reflexivity | apply le_cascade].
Qed.

Lemma SmallerThanOrEqual_lexicographic_witness :
  SmallerThanOrEqual semver "0.20.19" "1.1.2" = (true, None) /\
  (fst (SmallerThanOrEqual semver "0.20.19" "1.1.2") = true <->
   lexLe {| major := 0; minor := 20; revision := 19; tag := [] |}
         {| major := 1; minor := 1; revision := 2; tag := [] |}).
Proof.
  apply (SmallerThanOrEqual_lexicographic "0.20.19" "1.1.2"
           {| major := 0; minor := 20; revision := 19; tag := [] |}
           {| major := 1; minor := 1; revision := 2; tag := [] |});
    vm_compute; reflexivity.
Defined.

(** C5.  [InRange] with an empty [end] returns the boolean of
    [GreaterThanOrEqual version start] and its error (the same cause and the
    same text, under the location that [errors.Trace] adds), and never looks
    at [end], which [Valid] would reject; with a non-empty [end] it returns
    the first error of the two bound checks, traced and next to [false], and
    otherwise the conjunction of the two booleans. *)
Theorem InRange_bounds (version start end_ : str) :
  InRange semver version start [] =
    (fst (GreaterThanOrEqual semver version start),
     option_map Trace (snd (GreaterThanOrEqual semver version start))) /\
  (fst (InRange semver version start [])
   = fst (GreaterThanOrEqual semver version start) /\
   option_map Cause (snd (InRange semver version start []))
   = option_map Cause (snd (GreaterThanOrEqual semver version start)) /\
   option_map Error (snd (InRange semver version start []))
   = option_map Error (snd (GreaterThanOrEqual semver version start))) /\
  Valid semver [] = false /\
  (end_ <> [] ->
   InRange semver version start end_ =
     match snd (GreaterThanOrEqual semver version start),
           snd (SmallerThanOrEqual semver version end_) with
     | Some err, _ => (false, Some (Trace err))
     | None, Some err => (false, Some (Trace err))
     | None, None =>
         (fst (GreaterThanOrEqual semver version start)
          && fst (SmallerThanOrEqual semver version end_), None)
     end).
Proof.
  pose proof (InRange_empty_end semver version start) as E0.
  split; [exact E0 | ]. split; [ | split; [reflexivity | ]].
  - rewrite E0. simpl.
    destruct (snd (GreaterThanOrEqual semver version start)); repeat split.
  - apply InRange_nonempty_end.
Qed.

Lemma InRange_bounds_witness :
  InRange semver "11.22.33" "11.22.31" "11.22.32-hotfix" = (false, None).
Proof.
  apply (InRange_bounds "11.22.33" "11.22.31" "11.22.32-hotfix"). discriminate.
Defined.

(** C6.  When [version] is not valid, each comparison returns [false] and an
    error that names the operand [version] and quotes its text; when [version]
    is valid and the second operand is not, [false] and an error that names
    the operand [compare] and quotes that text.  [InRange] returns the same
    errors, traced, for [version], then [start], then a non-empty [end]. *)
Theorem invalid_operand_errors (version compare : str) :
  (Valid semver version = false ->
   GreaterThanOrEqual semver version compare
   = (false, Some (Errorf (lit "version `" ++ version ++ lit "` is invalid"))) /\
   SmallerThanOrEqual semver version compare
   = (false, Some (Errorf (lit "version `" ++ version ++ lit "` is invalid"))) /\
   forall end_, InRange semver version compare end_
   = (false, Some (Trace (Errorf (lit "version `" ++ version ++ lit "` is invalid"))))) /\
  (Valid semver version = true -> Valid semver compare = false ->
   GreaterThanOrEqual semver version compare
   = (false, Some (Errorf (lit "compare `" ++ compare ++ lit "` is invalid"))) /\
   SmallerThanOrEqual semver version compare
   = (false, Some (Errorf (lit "compare `" ++ compare ++ lit "` is invalid"))) /\
   (forall end_, InRange semver version compare end_
    = (false, Some (Trace (Errorf (lit "compare `" ++ compare ++ lit "` is invalid"))))) /\
   (forall start, compare <> [] ->
      snd (GreaterThanOrEqual semver version start) = None ->
      InRange semver version start compare
      = (false, Some (Trace (Errorf (lit "compare `" ++ compare ++ lit "` is invalid")))))).
Proof.
  split.
  - intros V. unfold InRange, GreaterThanOrEqual, SmallerThanOrEqual. rewrite V. simpl.
    repeat split; reflexivity.
  - intros V1 V2. unfold InRange at 1.
    unfold GreaterThanOrEqual at 1 2, SmallerThanOrEqual at 1. rewrite V1, V2. simpl.
    repeat split; try reflexivity.
    intros start Hne G. unfold InRange.
    destruct (GreaterThanOrEqual semver version start) as [g [e | ]]; [discriminate | ].
    assert (E : streq compare [] = false) by (destruct compare; [congruence | reflexivity]).
    rewrite E. simpl negb. cbv iota.
    unfold SmallerThanOrEqual. rewrite V1, V2. reflexivity.
Qed.

Lemma invalid_operand_errors_witness :
  GreaterThanOrEqual semver "8." "0.0.1"
  = (false, Some (Errorf "version `8.` is invalid")) /\
  SmallerThanOrEqual semver "0.0.1" "8."
  = (false, Some (Errorf "compare `8.` is invalid")) /\
  InRange semver "0.0.1" "0.0.1" "8."
  = (false, Some (Trace (Errorf "compare `8.` is invalid"))).
Proof.
  split; [ | split].
  - apply (proj1 (invalid_operand_errors "8." "0.0.1")). reflexivity.
  - apply (proj2 (invalid_operand_errors "0.0.1" "8.")); reflexivity.
  - apply (proj2 (invalid_operand_errors "0.0.1" "8.")); try reflexivity. discriminate.
Defined.

(** C7 (as amended).  For every string that [Valid] accepts and
    [buildVersion] parses, [GreaterThanOrEqual] and [SmallerThanOrEqual] of
    the string with itself return [true] and no error. *)
Theorem comparisons_reflexive (version : str) (v : semVersion) :
  Valid semver version = true ->
  buildVersion semver version = Ok v ->
  GreaterThanOrEqual semver version version = (true, None) /\
  SmallerThanOrEqual semver version version = (true, None).
Proof.
  intros V B.
  rewrite (GreaterThanOrEqual_parsed _ _ _ v v), (SmallerThanOrEqual_parsed _ _ _ v v)
    by assumption.
  rewrite !Z.gtb_ltb, !Z.ltb_irrefl.
  split; f_equal; [apply Z.geb_le | apply Z.leb_le]; lia.
Qed.

Lemma comparisons_reflexive_witness :
  GreaterThanOrEqual semver "1.9.18-hotfix" "1.9.18-hotfix" = (true, None) /\
  SmallerThanOrEqual semver "1.9.18-hotfix" "1.9.18-hotfix" = (true, None).
Proof.
  apply (comparisons_reflexive "1.9.18-hotfix"
           {| major := 1; minor := 9; revision := 18; tag := "hotfix" |});
    vm_compute; reflexivity.
Defined.

(** C7 as stated fails: the string is valid and both comparisons of it with
    itself return [false] and the range error of the number conversion. *)
Lemma comparisons_reflexive_counterexample :
  Valid semver "99999999999999999999.0.0" = true /\
  GreaterThanOrEqual semver "99999999999999999999.0.0" "99999999999999999999.0.0"
  = (false, Some (Trace (Trace (NumError "Atoi" "99999999999999999999" ErrRange)))) /\
  SmallerThanOrEqual semver "99999999999999999999.0.0" "99999999999999999999.0.0"
  = (false, Some (Trace (Trace (NumError "Atoi" "99999999999999999999" ErrRange)))).
Proof. repeat split; vm_compute; reflexivity. Qed.

(** C8.  The tag takes no part in the ordering: the result of either
    comparison is fixed by the numbers of the two parsed operands, and two
    valid strings that parse to the same (major, minor, revision), such as
    1.2.3-alpha and 1.2.3-beta, compare [true] both ways under both
    comparisons. *)
Theorem tag_independence (a b a' b' : str) (va vb va' vb' : semVersion) :
  Valid semver a = true -> Valid semver b = true ->
  Valid semver a' = true -> Valid semver b' = true ->
  buildVersion semver a = Ok va -> buildVersion semver b = Ok vb ->
  buildVersion semver a' = Ok va' -> buildVersion semver b' = Ok vb' ->
  triple va = triple va' -> triple vb = triple vb' ->
  (GreaterThanOrEqual semver a b = GreaterThanOrEqual semver a' b' /\
   SmallerThanOrEqual semver a b = SmallerThanOrEqual semver a' b') /\
  (triple va = triple vb ->
   GreaterThanOrEqual semver a b = (true, None) /\
   GreaterThanOrEqual semver b a = (true, None) /\
   SmallerThanOrEqual semver a b = (true, None) /\
   SmallerThanOrEqual semver b a = (true, None)) /\
  (GreaterThanOrEqual semver "1.2.3-alpha" "1.2.3-beta" = (true, None) /\
   GreaterThanOrEqual semver "1.2.3-beta" "1.2.3-alpha" = (true, None) /\
   SmallerThanOrEqual semver "1.2.3-alpha" "1.2.3-beta" = (true, None) /\
   SmallerThanOrEqual semver "1.2.3-beta" "1.2.3-alpha" = (true, None)).
Proof.
  intros Va Vb Va' Vb' Ba Bb Ba' Bb' Ta Tb.
  unfold triple in *. injection Ta as Ta1 Ta2 Ta3. injection Tb as Tb1 Tb2 Tb3.
  split; [ | split].
  - rewrite (GreaterThanOrEqual_parsed _ a b va vb), (GreaterThanOrEqual_parsed _ a' b' va' vb'),
      (SmallerThanOrEqual_parsed _ a b va vb), (SmallerThanOrEqual_parsed _ a' b' va' vb')
      by assumption.
    rewrite Ta1, Ta2, Ta3, Tb1, Tb2, Tb3. split; reflexivity.
  - intros T. injection T as T1 T2 T3.
    rewrite (GreaterThanOrEqual_parsed _ a b va vb), (GreaterThanOrEqual_parsed _ b a vb va),
      (SmallerThanOrEqual_parsed _ a b va vb), (SmallerThanOrEqual_parsed _ b a vb va)
      by assumption.
    rewrite T1, T2, T3, !Z.gtb_ltb, !Z.ltb_irrefl.
    repeat split; f_equal; try apply Z.geb_le; try apply Z.leb_le; lia.
  - repeat split; vm_compute; reflexivity.
Qed.

Lemma tag_independence_witness :
  GreaterThanOrEqual semver "1.2.3-alpha" "1.2.4"
  = GreaterThanOrEqual semver "1.2.3-beta" "1.2.4-rc.1" /\
  SmallerThanOrEqual semver "1.2.3-alpha" "1.2.4"
  = SmallerThanOrEqual semver "1.2.3-beta" "1.2.4-rc.1".
Proof.
  apply (tag_independence "1.2.3-alpha" "1.2.4" "1.2.3-beta" "1.2.4-rc.1"
           {| major := 1; minor := 2; revision := 3; tag := "alpha" |}
           {| major := 1; minor := 2; revision := 4; tag := [] |}
           {| major := 1; minor := 2; revision := 3; tag := "beta" |}
           {| major := 1; minor := 2; revision := 4; tag := "rc.1" |});
    vm_compute; reflexivity.
Defined.

(** C10.  Whenever the three calls return no error, [GreaterThanOrEqual a b]
    and [GreaterThanOrEqual b c] returning [true] make
    [GreaterThanOrEqual a c] return [true]. *)
Theorem GreaterThanOrEqual_transitive (a b c : str) :
  snd (GreaterThanOrEqual semver a b) = None ->
  snd (GreaterThanOrEqual semver b c) = None ->
  snd (GreaterThanOrEqual semver a c) = None ->
  fst (GreaterThanOrEqual semver a b) = true ->
  fst (GreaterThanOrEqual semver b c) = true ->
  fst (GreaterThanOrEqual semver a c) = true.
Proof.
  intros Eab Ebc _.
  apply GreaterThanOrEqual_nil_inv in Eab as (va & vb & Va & Vb & Ba & Bb).
  apply GreaterThanOrEqual_nil_inv in Ebc as (vb' & vc & _ & Vc & Bb' & Bc).
  rewrite Bb in Bb'. injection Bb' as <-.
  rewrite (GreaterThanOrEqual_parsed _ a b va vb), (GreaterThanOrEqual_parsed _ b c vb vc),
    (GreaterThanOrEqual_parsed _ a c va vc) by assumption.
  simpl fst. rewrite !ge_cascade. unfold lexLe. lia.
Qed.

Lemma GreaterThanOrEqual_transitive_witness :
  fst (GreaterThanOrEqual semver "2.0.0" "1.0.1-rc.2") = true.
Proof.
  apply (GreaterThanOrEqual_transitive "2.0.0" "1.10.0" "1.0.1-rc.2");
    vm_compute; reflexivity.
Defined.

(** C4.  [Valid] is a boolean function that decides the grammar of the
    specification on the whole string.  It accepts 0.0.0, 1.2.3,
    1.9.18-hotfix and 10.5.7-dashes-and.dots; it rejects 9, 2.0, 8., 3.8.2-,
    the empty string, and every string one of whose three core segments is a
    zero with digits after it: 01.2.3 is rejected and 0.2.3 accepted. *)
Theorem Valid_decides_grammar :
  (forall s, Valid semver s = true <-> matches Grammar.version s) /\
  (forall s, Valid semver s = false <-> ~ matches Grammar.version s) /\
  (Valid semver "0.0.0" = true /\ Valid semver "1.2.3" = true /\
   Valid semver "1.9.18-hotfix" = true /\
   Valid semver "10.5.7-dashes-and.dots" = true) /\
  (Valid semver "9" = false /\ Valid semver "2.0" = false /\
   Valid semver "8." = false /\ Valid semver "3.8.2-" = false /\
   Valid semver [] = false) /\
  (forall s seg,
     In seg (coreSegments s) -> leadingZero seg = true -> Valid semver s = false) /\
  (Valid semver "01.2.3" = false /\ Valid semver "0.2.3" = true).
Proof.
  assert (D : forall s, Valid semver s = true <-> matches Grammar.version s).
  { intros s. rewrite Valid_matches. symmetry. apply version_same. }
  split; [exact D | ]. split.
  { intros s. rewrite <- D. destruct (Valid semver s); split; congruence. }
  split; [repeat split; vm_compute; reflexivity | ].
  split; [repeat split; vm_compute; reflexivity | ].
  split; [ | split; vm_compute; reflexivity].
  intros s seg Hin Hz. destruct (Valid semver s) eqn:V; [ | reflexivity].
  apply valid_no_leadingZero in V. rewrite forallb_forall in V.
  apply V in Hin. rewrite Hz in Hin. discriminate.
Qed.

Lemma Valid_decides_grammar_witness : Valid semver "1.2.03-rc.1" = false.
Proof.
  apply (proj1 (proj2 (proj2 (proj2 (proj2 Valid_decides_grammar))))
           "1.2.03-rc.1" "03").
  - vm_compute. auto.
  - reflexivity.
Defined.

(** C9.  [buildVersion] parses a dash-free two-part text [a.b] to major [a],
    minor [b] and revision 0, while [Valid] rejects every string whose core
    has two parts; and [buildVersion] fails with the parts-count error, which
    reports the count, exactly when the text before the first dash splits on
    dots into a number of parts other than 2 or 3. *)
Theorem parser_validator_asymmetry :
  (forall (a b : str) (x y : Z),
     ~ In "-"%char a -> ~ In "."%char a -> ~ In "-"%char b -> ~ In "."%char b ->
     strconv.Atoi a = Ok x -> strconv.Atoi b = Ok y ->
     buildVersion semver (a ++ "."%char :: b)
     = Ok {| major := x; minor := y; revision := 0; tag := [] |}) /\
  buildVersion semver "1.2" = Ok {| major := 1; minor := 2; revision := 0; tag := [] |} /\
  Valid semver "1.2" = false /\
  (forall version,
     List.length (strings.Split (coreOf version) ".") = 2%nat ->
     Valid semver version = false) /\
  (forall version,
     let n := List.length (strings.Split (coreOf version) ".") in
     (n <> 2%nat /\ n <> 3%nat ->
      buildVersion semver version
      = Err (Errorf (lit "versions should be 2 or 3 parts. Got " ++ formatInt n))) /\
     (n = 2%nat \/ n = 3%nat ->
      forall message, buildVersion semver version <> Err (Errorf message))).
Proof.
  split; [ | split; [reflexivity | split; [reflexivity | split]]].
  - intros a b x y Ha1 Ha2 Hb1 Hb2 Ax Ay. unfold buildVersion.
    rewrite Contains_notin.
    2:{ rewrite in_app_iff. simpl. intros [ | [ | ]]; try tauto; discriminate. }
    rewrite Split_first, Split_notin by assumption.
    cbn [List.length nth Z.of_nat]. simpl negb. cbv iota.
    rewrite Ax, Ay. reflexivity.
  - intros version Hn. destruct (Valid semver version) eqn:V; [ | reflexivity].
    apply valid_core_parts in V. lia.
  - intros version. apply buildVersion_parts.
Qed.

Lemma parser_validator_asymmetry_witness :
  buildVersion semver "+7.12"
  = Ok {| major := 7; minor := 12; revision := 0; tag := [] |} /\
  Valid semver "7.12-rc.1" = false /\
  buildVersion semver "1.2.3.4-rc.1"
  = Err (Errorf "versions should be 2 or 3 parts. Got 4").
Proof.
  split; [ | split].
  - apply (proj1 parser_validator_asymmetry "+7" "12" 7 12);
      try reflexivity; vm_compute; intuition discriminate.
  - apply (proj1 (proj2 (proj2 (proj2 parser_validator_asymmetry))) "7.12-rc.1").
    reflexivity.
  - apply (proj1 (proj2 (proj2 (proj2 (proj2 parser_validator_asymmetry))) "1.2.3.4-rc.1")).
    vm_compute. split; discriminate.
Defined.

(** * Further properties of the package *)

(** ** More on [strconv.Atoi] *)

Section AtoiFailures.

Import strconv.

Lemma wrapU_range n : 0 <= wrapU n < 2 ^ 64.
Proof. unfold wrapU. apply Z.mod_pos_bound. reflexivity. Qed.

Lemma wrapU_over n : 2 ^ 64 <= n < 2 ^ 64 + 2 ^ 64 -> wrapU n = n - 2 ^ 64.
Proof.
  intros H. unfold wrapU.
  replace n with (n - 2 ^ 64 + 1 * 2 ^ 64) at 1 by lia.
  rewrite Z_mod_plus_full. apply Z.mod_small. lia.
Qed.

(** On digits the loop of [ParseUint] ends in the number or in a range
    failure, never in a syntax failure. *)
Lemma parseUintLoop_digits_cases s : forall n,
  allDigits s = true -> 0 <= n ->
  parseUintLoop s n = inr ErrRange \/ parseUintLoop s n = inl (decimalFrom n s).
Proof.
  induction s as [ | c s IH]; intros n D Hn; [right; reflexivity | ].
  simpl in D. apply andb_true_iff in D as [Dc Ds].
  rewrite decimalFrom_cons. simpl parseUintLoop. rewrite Dc.
  pose proof (isDigit_digit _ Dc) as Hd.
  change ((2 ^ 64 - 1) / 10 + 1) with 1844674407370955162.
  change (2 ^ 64 - 1) with 18446744073709551615.
  destruct (n >=? 1844674407370955162) eqn:E1; [now left | ].
  rewrite Z.geb_leb in E1. apply Z.leb_gt in E1.
  rewrite (wrapU_small (n * 10)) by (rewrite pow64; lia).
  destruct (Z_lt_ge_dec (n * 10 + digit c) (2 ^ 64)) as [Hlt | Hge].
  - rewrite wrapU_small by lia.
    destruct (n * 10 + digit c <? n * 10) eqn:E2; [apply Z.ltb_lt in E2; lia | ].
    rewrite pow64 in Hlt.
    destruct (n * 10 + digit c >? 18446744073709551615) eqn:E3;
      [apply Z.gtb_lt in E3; lia | ].
    simpl. apply IH; [assumption | lia].
  - rewrite wrapU_over by (rewrite pow64 in *; lia).
    rewrite pow64 in *.
    destruct (n * 10 + digit c - 18446744073709551616 <? n * 10) eqn:E2;
      [now left | apply Z.ltb_ge in E2; lia].
Qed.

Lemma decimalFrom_below s : forall n,
  allDigits s = true -> 0 <= n ->
  decimalFrom n s < (n + 1) * 10 ^ Z.of_nat (List.length s).
Proof.
  induction s as [ | c s IH]; intros n D Hn.
  - simpl. lia.
  - simpl in D. apply andb_true_iff in D as [Dc Ds].
    rewrite decimalFrom_cons. pose proof (isDigit_digit _ Dc) as Hd.
    specialize (IH (n * 10 + digit c) Ds ltac:(lia)).
    cbn [List.length]. rewrite Nat2Z.inj_succ, Z.pow_succ_r by lia.
    assert (P : 0 < 10 ^ Z.of_nat (List.length s)) by (apply Z.pow_pos_nonneg; lia).
    nia.
Qed.

(** A text of digits whose number is above the largest [int] is refused with
    a range error. *)
Lemma Atoi_range s :
  allDigits s = true -> maxInt < decimalValue s ->
  Atoi s = Err (NumError "Atoi" s ErrRange).
Proof.
  intros D Hmax. unfold Atoi.
  pose proof (decimalFrom_below s 0 D ltac:(lia)) as B.
  fold (decimalValue s) in B. unfold maxInt in Hmax. rewrite pow63 in Hmax.
  assert (L : 19 <= len s).
  { unfold len. destruct (Z_lt_ge_dec (Z.of_nat (List.length s)) 19) as [Hl | Hl]; [ | lia].
    assert (10 ^ Z.of_nat (List.length s) <= 10 ^ 18)
      by (apply Z.pow_le_mono_r; lia).
    change (10 ^ 18) with 1000000000000000000 in *. lia. }
  destruct (len s <? 19) eqn:E; [apply Z.ltb_lt in E; lia | ].
  rewrite andb_false_r.
  destruct s as [ | c s']; [unfold len in L; simpl in L; lia | ].
  assert (Dc : isDigit c = true) by (simpl in D; now apply andb_true_iff in D as [-> _]).
  destruct (isDigit_not_sign c Dc) as [Em Ep].
  unfold ParseInt. rewrite Em, Ep. simpl orb. cbv iota. unfold ParseUint.
  unfold intSize. change (2 ^ (64 - 1)) with 9223372036854775808.
  change (2 ^ 64 - 1) with 18446744073709551615. simpl negb.
  destruct (parseUintLoop_digits_cases (c :: s') 0 D ltac:(lia)) as [-> | ->].
  - reflexivity.
  - fold (decimalValue (c :: s')).
    destruct (decimalValue (c :: s') >=? 9223372036854775808) eqn:E1; [reflexivity | ].
    rewrite Z.geb_leb in E1. apply Z.leb_gt in E1. lia.
Qed.

Lemma atoiLoop_nondigit s : forall n, allDigits s = false -> atoiLoop s n = None.
Proof.
  induction s as [ | c s IH]; intros n D; [discriminate | ].
  simpl in *. destruct (isDigit c); [apply IH; exact D | reflexivity].
Qed.

Lemma parseUintLoop_nondigit s : forall n,
  allDigits s = false -> exists kind, parseUintLoop s n = inr kind.
Proof.
  induction s as [ | c s IH]; intros n D; [discriminate | ].
  cbn [allDigits forallb parseUintLoop] in *. destruct (isDigit c); [ | eauto].
  simpl andb in D. cbv zeta.
  destruct (n >=? (2 ^ 64 - 1) / 10 + 1); [eauto | ].
  destruct ((wrapU (wrapU (n * 10) + digit c) <? wrapU (n * 10))
            || (wrapU (wrapU (n * 10) + digit c) >? 2 ^ 64 - 1)); eauto.
Qed.

(** A text that starts with a digit and holds another byte than a digit is
    refused. *)
Lemma Atoi_nondigit c s :
  isDigit c = true -> allDigits s = false -> exists e, Atoi (c :: s) = Err e.
Proof.
  intros Dc D. unfold Atoi.
  destruct (isDigit_not_sign c Dc) as [Em Ep].
  assert (D' : allDigits (c :: s) = false) by (simpl; now rewrite Dc).
  destruct ((0 <? len (c :: s)) && (len (c :: s) <? 19)).
  - rewrite Em, Ep. simpl orb. cbv iota. simpl andb. cbv iota.
    rewrite atoiLoop_nondigit by assumption. eauto.
  - unfold ParseInt. rewrite Em, Ep. simpl orb. cbv iota. unfold ParseUint.
    destruct (parseUintLoop_nondigit (c :: s) 0 D') as [[ | ] ->]; [eauto | ].
    simpl negb. unfold intSize.
    change (2 ^ 64 - 1 >=? 2 ^ (64 - 1)) with true. simpl. eauto.
Qed.

Lemma atoiLoop_bound s : forall n k m,
  atoiLoop s n = Some m -> 0 <= n < 10 ^ Z.of_nat k ->
  (k + List.length s <= 18)%nat ->
  0 <= m < 10 ^ Z.of_nat (k + List.length s).
Proof.
  induction s as [ | c s IH]; intros n k m H Hn Hk.
  - simpl in H. injection H as <-. simpl. now rewrite Nat.add_0_r.
  - simpl in H. destruct (isDigit c) eqn:Dc; [ | discriminate].
    pose proof (isDigit_digit _ Dc) as Hd. cbn [List.length] in *.
    assert (B : 0 <= n * 10 + digit c < 10 ^ Z.of_nat (S k)).
    { rewrite Nat2Z.inj_succ, Z.pow_succ_r by lia. lia. }
    assert (10 ^ Z.of_nat (S k) <= 10 ^ 18) by (apply Z.pow_le_mono_r; lia).
    change (10 ^ 18) with 1000000000000000000 in *.
    rewrite wrapInt_small in H by (rewrite pow63; lia).
    replace (k + S (List.length s))%nat with (S k + List.length s)%nat by lia.
    apply (IH _ (S k) m H B). lia.
Qed.

Lemma parseUintLoop_nonneg s : forall n m,
  parseUintLoop s n = inl m -> 0 <= n -> 0 <= m.
Proof.
  induction s as [ | c s IH]; intros n m H Hn.
  - simpl in H. injection H as <-. assumption.
  - cbn [parseUintLoop] in H. destruct (isDigit c); [ | discriminate].
    cbv zeta in H.
    destruct (n >=? (2 ^ 64 - 1) / 10 + 1); [discriminate | ].
    destruct ((wrapU (wrapU (n * 10) + digit c) <? wrapU (n * 10))
              || (wrapU (wrapU (n * 10) + digit c) >? 2 ^ 64 - 1)); [discriminate | ].
    apply IH in H; [assumption | apply wrapU_range].
Qed.

(** Without a dash in the text, what [Atoi] returns is a number from 0 to the
    largest [int]. *)
Lemma Atoi_no_dash s n :
  Atoi s = Ok n -> ~ In "-"%char s -> 0 <= n <= maxInt.
Proof.
  unfold Atoi, maxInt. rewrite pow63. intros H Hd.
  destruct s as [ | c s']; [simpl in H; discriminate | ].
  assert (Em : Ascii.eqb c "-" = false).
  { destruct (Ascii.eqb_spec c "-"%char) as [-> | _]; [simpl in Hd; tauto | reflexivity]. }
  rewrite Em in H.
  destruct ((0 <? len (c :: s')) && (len (c :: s') <? 19)) eqn:L.
  - apply andb_true_iff in L as [_ L]. apply Z.ltb_lt in L. unfold len in L.
    cbn [List.length] in L. simpl orb in H.
    destruct (Ascii.eqb c "+").
    + destruct (len s' <? 1); simpl andb in H; cbv iota in H; [discriminate | ].
      destruct (atoiLoop s' 0) as [m | ] eqn:A; [ | discriminate].
      injection H as <-.
      assert (B : 0 <= m < 10 ^ Z.of_nat (0 + List.length s'))
        by (apply (atoiLoop_bound s' 0 0 m A); simpl; lia).
      assert (10 ^ Z.of_nat (0 + List.length s') <= 10 ^ 18) by (apply Z.pow_le_mono_r; lia).
      change (10 ^ 18) with 1000000000000000000 in *. lia.
    + simpl andb in H. cbv iota in H.
      destruct (atoiLoop (c :: s') 0) as [m | ] eqn:A; [ | discriminate].
      injection H as <-.
      assert (B : 0 <= m < 10 ^ Z.of_nat (0 + List.length (c :: s')))
        by (apply (atoiLoop_bound (c :: s') 0 0 m A); cbn [List.length]; simpl; lia).
      assert (10 ^ Z.of_nat (0 + List.length (c :: s')) <= 10 ^ 18)
        by (apply Z.pow_le_mono_r; cbn [List.length]; lia).
      change (10 ^ 18) with 1000000000000000000 in *. lia.
  - unfold ParseInt in H. rewrite Em in H. rewrite orb_false_r in H.
    unfold intSize in H. change (2 ^ (64 - 1)) with 9223372036854775808 in H.
    change (2 ^ 64 - 1) with 18446744073709551615 in H. simpl negb in H.
    match type of H with
    | context [ParseUint ?x] => destruct (ParseUint x) as [un | [ | ]] eqn:P
    end.
    + cbv beta iota zeta in H.
      destruct (un >=? 9223372036854775808) eqn:E;
        simpl andb in H; cbv beta iota in H; [discriminate | ].
      injection H as <-. rewrite Z.geb_leb in E. apply Z.leb_gt in E.
      split; [ | lia].
      unfold ParseUint in P.
      match type of P with
      | match ?x with [] => _ | _ :: _ => _ end = _ => destruct x; [discriminate | ]
      end.
      apply parseUintLoop_nonneg in P; lia.
    + discriminate.
    + simpl in H. discriminate.
Qed.

End AtoiFailures.

(** ** [buildVersion] through the parts of the core *)

Section ByParts.

Import strings.

(** [buildVersion] is a function of the parts of the text before the first
    dash and of the text after it. *)
Lemma buildVersion_by_parts s version :
  buildVersion s version =
    let parts := Split (coreOf version) "." in
    let n := List.length parts in
    if (n =? 2)%nat || (n =? 3)%nat then
      match strconv.Atoi (nth 0 parts []) with
      | Err err => Err (Trace err)
      | Ok x =>
          match strconv.Atoi (nth 1 parts []) with
          | Err err => Err (Trace err)
          | Ok y =>
              if (n =? 3)%nat then
                match strconv.Atoi (nth 2 parts []) with
                | Err err => Err (Trace err)
                | Ok z =>
                    Ok {| major := x; minor := y; revision := z; tag := tagOf version |}
                end
              else Ok {| major := x; minor := y; revision := 0; tag := tagOf version |}
          end
      end
    else Err (partsCountError n).
Proof.
  assert (G : forall t core,
    (let versionParts := Split core "." in
     let versionPartsLength := Z.of_nat (List.length versionParts) in
     if negb (versionPartsLength =? 2) && negb (versionPartsLength =? 3) then
       Err (Errorf (lit "versions should be 2 or 3 parts. Got "
                      ++ formatInt (List.length versionParts)))
     else
       match strconv.Atoi (nth 0 versionParts []) with
       | Err err => Err (Trace err)
       | Ok n =>
           let semVersion :=
             setMajor {| major := 0; minor := 0; revision := 0; tag := t |} n in
           match strconv.Atoi (nth 1 versionParts []) with
           | Err err => Err (Trace err)
           | Ok n =>
               let semVersion := setMinor semVersion n in
               if versionPartsLength =? exptectedPartsWithRevision then
                 match strconv.Atoi (nth 2 versionParts []) with
                 | Err err => Err (Trace err)
                 | Ok n => Ok (setRevision semVersion n)
                 end
               else Ok semVersion
           end
       end) =
    (let parts := Split core "." in
     let n := List.length parts in
     if (n =? 2)%nat || (n =? 3)%nat then
       match strconv.Atoi (nth 0 parts []) with
       | Err err => Err (Trace err)
       | Ok x =>
           match strconv.Atoi (nth 1 parts []) with
           | Err err => Err (Trace err)
           | Ok y =>
               if (n =? 3)%nat then
                 match strconv.Atoi (nth 2 parts []) with
                 | Err err => Err (Trace err)
                 | Ok z => Ok {| major := x; minor := y; revision := z; tag := t |}
                 end
               else Ok {| major := x; minor := y; revision := 0; tag := t |}
           end
       end
     else Err (partsCountError n))).
  { intros t core. cbv zeta. unfold exptectedPartsWithRevision, partsCountError.
    set (parts := Split core ".").
    destruct (Z.eqb_spec (Z.of_nat (List.length parts)) 2) as [E2 | E2];
      destruct (Z.eqb_spec (Z.of_nat (List.length parts)) 3) as [E3 | E3];
      destruct (Nat.eqb_spec (List.length parts) 2) as [N2 | N2];
      destruct (Nat.eqb_spec (List.length parts) 3) as [N3 | N3];
      try lia; cbn [negb andb orb]; try reflexivity;
      destruct (strconv.Atoi (nth 0 parts [])); try reflexivity;
      destruct (strconv.Atoi (nth 1 parts [])); try reflexivity;
      destruct (strconv.Atoi (nth 2 parts [])); reflexivity. }
  unfold buildVersion, coreOf, tagOf.
  destruct (Contains version "-") eqn:C.
  - apply Contains_In in C. destruct (first_cut _ _ C) as (a & b & -> & Ha).
    rewrite SplitN2_first by assumption.
    cbn [List.length nth Z.of_nat]. simpl negb. cbv iota. apply G.
  - apply G.
Qed.

Lemma coreOf_no_dash version : ~ In "-"%char (coreOf version).
Proof.
  destruct (in_dec ascii_dec "-"%char version) as [Hin | Hnin].
  - destruct (first_cut _ _ Hin) as (a & b & -> & Ha). now rewrite coreOf_cut.
  - now rewrite coreOf_plain.
Qed.

Lemma tagOf_cut a r : ~ In "-"%char a -> tagOf (a ++ "-"%char :: r) = r.
Proof.
  intros H. unfold tagOf. now rewrite Contains_first, SplitN2_first by assumption.
Qed.

Lemma tagOf_plain version : ~ In "-"%char version -> tagOf version = [].
Proof. intros H. unfold tagOf. now rewrite Contains_notin by assumption. Qed.

(** A text is its core, and a dash and its tag when it has a dash. *)
Lemma core_dash_tag version :
  version = coreOf version ++
            (if Contains version "-" then "-"%char :: tagOf version else []).
Proof.
  destruct (in_dec ascii_dec "-"%char version) as [Hin | Hnin].
  - destruct (first_cut _ _ Hin) as (a & b & -> & Ha).
    now rewrite coreOf_cut, tagOf_cut, Contains_first by assumption.
  - rewrite coreOf_plain, Contains_notin by assumption. now rewrite app_nil_r.
Qed.

(** Every byte of a part of a text is a byte of the text. *)
Lemma splitLoop_bytes (sep : ascii) n : forall s p x,
  In p (splitLoop n s sep) -> In x p -> In x s.
Proof.
  induction n as [ | n IH]; intros s p x Hp Hx; simpl in Hp.
  - destruct Hp as [<- | []]. assumption.
  - destruct (Index s sep <? 0) eqn:E; [ | apply Z.ltb_ge in E].
    + destruct Hp as [<- | []]. assumption.
    + rewrite <- (firstn_skipn (Z.to_nat (Index s sep)) s). apply in_or_app.
      destruct Hp as [<- | Hp]; [now left | right].
      apply (IH _ _ _ Hp) in Hx.
      replace (Z.to_nat (Index s sep + 1)) with (1 + Z.to_nat (Index s sep))%nat in Hx.
      * rewrite <- skipn_skipn in Hx.
        destruct (skipn (Z.to_nat (Index s sep)) s) as [ | y l]; [destruct Hx | ].
        simpl in Hx. now right.
      * lia.
Qed.

Lemma Split_bytes (sep : ascii) s p x : In p (Split s sep) -> In x p -> In x s.
Proof. rewrite Split_eq. apply splitLoop_bytes. Qed.

End ByParts.

(** ** The order the comparisons define *)

Section Order.

Lemma lexLe_refl v : lexLe v v.
Proof. unfold lexLe. lia. Qed.

Lemma lexLe_trans a b c : lexLe a b -> lexLe b c -> lexLe a c.
Proof. unfold lexLe. lia. Qed.

Lemma lexLe_total a b : lexLe a b \/ lexLe b a.
Proof. unfold lexLe. lia. Qed.

Lemma lexLe_antisym a b : lexLe a b -> lexLe b a -> triple a = triple b.
Proof.
  unfold lexLe, triple. intros H1 H2.
  replace (major b) with (major a) by lia.
  replace (minor b) with (minor a) by lia.
  replace (revision b) with (revision a) by lia. reflexivity.
Qed.

Lemma triple_lexLe a b : triple a = triple b -> lexLe a b /\ lexLe b a.
Proof. unfold lexLe, triple. intros H. injection H as H1 H2 H3. lia. Qed.

(** Both comparisons of valid, parsed operands, as the order on the numbers. *)
Lemma GreaterThanOrEqual_lexLe s version compare v c :
  Valid s version = true -> Valid s compare = true ->
  buildVersion s version = Ok v -> buildVersion s compare = Ok c ->
  snd (GreaterThanOrEqual s version compare) = None /\
  (fst (GreaterThanOrEqual s version compare) = true <-> lexLe c v).
Proof.
  intros V1 V2 B1 B2. rewrite (GreaterThanOrEqual_parsed _ _ _ v c) by assumption.
  split; [reflexivity | apply ge_cascade].
Qed.

Lemma SmallerThanOrEqual_lexLe s version compare v c :
  Valid s version = true -> Valid s compare = true ->
  buildVersion s version = Ok v -> buildVersion s compare = Ok c ->
  snd (SmallerThanOrEqual s version compare) = None /\
  (fst (SmallerThanOrEqual s version compare) = true <-> lexLe v c).
Proof.
  intros V1 V2 B1 B2. rewrite (SmallerThanOrEqual_parsed _ _ _ v c) by assumption.
  split; [reflexivity | apply le_cascade].
Qed.

End Order.

(** X1.  On valid operands that parse, [GreaterThanOrEqual version compare]
    and [SmallerThanOrEqual compare version] return the same result. *)
Theorem comparisons_mirror (version compare : str) (v c : semVersion) :
  Valid semver version = true -> Valid semver compare = true ->
  buildVersion semver version = Ok v -> buildVersion semver compare = Ok c ->
  GreaterThanOrEqual semver version compare
  = SmallerThanOrEqual semver compare version.
Proof.
  intros V1 V2 B1 B2.
  rewrite (GreaterThanOrEqual_parsed _ _ _ v c), (SmallerThanOrEqual_parsed _ _ _ c v)
    by assumption.
  now rewrite !Z.gtb_ltb, Z.geb_leb.
Qed.

Lemma comparisons_mirror_witness :
  GreaterThanOrEqual semver "1.10.0" "1.9.7-rc.1"
  = SmallerThanOrEqual semver "1.9.7-rc.1" "1.10.0".
Proof.
  apply (comparisons_mirror "1.10.0" "1.9.7-rc.1"
           {| major := 1; minor := 10; revision := 0; tag := [] |}
           {| major := 1; minor := 9; revision := 7; tag := "rc.1" |});
    vm_compute; reflexivity.
Defined.

(** X2.  On valid operands that parse, at least one of
    [GreaterThanOrEqual] and [SmallerThanOrEqual] returns [true], and both do
    exactly when the two operands have the same (major, minor, revision). *)
Theorem comparisons_total_antisymmetric (version compare : str) (v c : semVersion) :
  Valid semver version = true -> Valid semver compare = true ->
  buildVersion semver version = Ok v -> buildVersion semver compare = Ok c ->
  (fst (GreaterThanOrEqual semver version compare) = true \/
   fst (SmallerThanOrEqual semver version compare) = true) /\
  (fst (GreaterThanOrEqual semver version compare) = true /\
   fst (SmallerThanOrEqual semver version compare) = true <->
   triple v = triple c).
Proof.
  intros V1 V2 B1 B2.
  destruct (GreaterThanOrEqual_lexLe semver _ _ v c V1 V2 B1 B2) as [_ G].
  destruct (SmallerThanOrEqual_lexLe semver _ _ v c V1 V2 B1 B2) as [_ L].
  rewrite G, L. split.
  - destruct (lexLe_total c v); auto.
  - split.
    + intros [H1 H2]. now apply lexLe_antisym.
    + intros H. apply triple_lexLe in H. tauto.
Qed.

Lemma comparisons_total_antisymmetric_witness :
  fst (GreaterThanOrEqual semver "0.9.0" "1.0.0-rc.1") = true \/
  fst (SmallerThanOrEqual semver "0.9.0" "1.0.0-rc.1") = true.
Proof.
  apply (comparisons_total_antisymmetric "0.9.0" "1.0.0-rc.1"
           {| major := 0; minor := 9; revision := 0; tag := [] |}
           {| major := 1; minor := 0; revision := 0; tag := "rc.1" |});
    vm_compute; reflexivity.
Defined.

(** X3.  Whenever the three calls return no error, [SmallerThanOrEqual a b]
    and [SmallerThanOrEqual b c] returning [true] make
    [SmallerThanOrEqual a c] return [true]. *)
Theorem SmallerThanOrEqual_transitive (a b c : str) :
  snd (SmallerThanOrEqual semver a b) = None ->
  snd (SmallerThanOrEqual semver b c) = None ->
  snd (SmallerThanOrEqual semver a c) = None ->
  fst (SmallerThanOrEqual semver a b) = true ->
  fst (SmallerThanOrEqual semver b c) = true ->
  fst (SmallerThanOrEqual semver a c) = true.
Proof.
  intros Eab Ebc _.
  apply SmallerThanOrEqual_nil_inv in Eab as (va & vb & Va & Vb & Ba & Bb).
  apply SmallerThanOrEqual_nil_inv in Ebc as (vb' & vc & _ & Vc & Bb' & Bc).
  rewrite Bb in Bb'. injection Bb' as <-.
  rewrite (proj2 (SmallerThanOrEqual_lexLe semver a b va vb Va Vb Ba Bb)),
    (proj2 (SmallerThanOrEqual_lexLe semver b c vb vc Vb Vc Bb Bc)),
    (proj2 (SmallerThanOrEqual_lexLe semver a c va vc Va Vc Ba Bc)).
  apply lexLe_trans.
Qed.

Lemma SmallerThanOrEqual_transitive_witness :
  fst (SmallerThanOrEqual semver "0.1.2" "1.1.2-rc.1") = true.
Proof.
  apply (SmallerThanOrEqual_transitive "0.1.2" "0.20.19" "1.1.2-rc.1");
    vm_compute; reflexivity.
Defined.

(** X4.  On a valid version and valid bounds that all parse, [InRange]
    returns no error, and [true] exactly when the version lies between the
    bounds, both included, in the order on (major, minor, revision); with an
    empty [end], exactly when the version is at or above [start]. *)
Theorem InRange_interval (version start end_ : str) (v lo hi : semVersion) :
  Valid semver version = true -> Valid semver start = true ->
  Valid semver end_ = true ->
  buildVersion semver version = Ok v -> buildVersion semver start = Ok lo ->
  buildVersion semver end_ = Ok hi ->
  snd (InRange semver version start end_) = None /\
  (fst (InRange semver version start end_) = true <-> lexLe lo v /\ lexLe v hi) /\
  snd (InRange semver version start []) = None /\
  (fst (InRange semver version start []) = true <-> lexLe lo v).
Proof.
  intros V1 V2 V3 B1 B2 B3.
  destruct (GreaterThanOrEqual_lexLe semver _ _ v lo V1 V2 B1 B2) as [G1 G2].
  destruct (SmallerThanOrEqual_lexLe semver _ _ v hi V1 V3 B1 B3) as [L1 L2].
  assert (Hne : end_ <> []) by (intros ->; discriminate).
  rewrite (InRange_nonempty_end _ _ _ _ Hne), InRange_empty_end, G1, L1. simpl.
  rewrite andb_true_iff, G2, L2. tauto.
Qed.

Lemma InRange_interval_witness :
  snd (InRange semver "12.13.14" "11.22.33" "13.0.0-rc.1") = None /\
  (fst (InRange semver "12.13.14" "11.22.33" "13.0.0-rc.1") = true <->
   lexLe {| major := 11; minor := 22; revision := 33; tag := [] |}
         {| major := 12; minor := 13; revision := 14; tag := [] |} /\
   lexLe {| major := 12; minor := 13; revision := 14; tag := [] |}
         {| major := 13; minor := 0; revision := 0; tag := "rc.1" |}) /\
  snd (InRange semver "12.13.14" "11.22.33" []) = None /\
  (fst (InRange semver "12.13.14" "11.22.33" []) = true <->
   lexLe {| major := 11; minor := 22; revision := 33; tag := [] |}
         {| major := 12; minor := 13; revision := 14; tag := [] |}).
Proof.
  apply (InRange_interval "12.13.14" "11.22.33" "13.0.0-rc.1"); vm_compute; reflexivity.
Defined.

(** X5.  When [start] is strictly above [end] in the order on (major, minor,
    revision), [InRange] returns [false] and no error for every valid version
    that parses: a range given upside down holds no version. *)
Theorem InRange_inverted (version start end_ : str) (v lo hi : semVersion) :
  Valid semver version = true -> Valid semver start = true ->
  Valid semver end_ = true ->
  buildVersion semver version = Ok v -> buildVersion semver start = Ok lo ->
  buildVersion semver end_ = Ok hi ->
  ~ lexLe lo hi ->
  InRange semver version start end_ = (false, None).
Proof.
  intros V1 V2 V3 B1 B2 B3 Hinv.
  destruct (GreaterThanOrEqual_lexLe semver _ _ v lo V1 V2 B1 B2) as [G1 G2].
  destruct (SmallerThanOrEqual_lexLe semver _ _ v hi V1 V3 B1 B3) as [L1 L2].
  assert (Hne : end_ <> []) by (intros ->; discriminate).
  rewrite (InRange_nonempty_end _ _ _ _ Hne), G1, L1. f_equal.
  apply not_true_is_false. rewrite andb_true_iff, G2, L2.
  intros [H1 H2]. apply Hinv. now apply lexLe_trans with v.
Qed.

Lemma InRange_inverted_witness :
  InRange semver "2.5.0" "3.0.0" "2.0.0" = (false, None).
Proof.
  apply (InRange_inverted "2.5.0" "3.0.0" "2.0.0"
           {| major := 2; minor := 5; revision := 0; tag := [] |}
           {| major := 3; minor := 0; revision := 0; tag := [] |}
           {| major := 2; minor := 0; revision := 0; tag := [] |});
    try (vm_compute; reflexivity).
  unfold lexLe. simpl. lia.
Defined.

(** X6.  [GreaterThanOrEqual] and [SmallerThanOrEqual] return no error exactly
    when both operands are valid and both parse; and whenever one of them or
    [InRange] returns an error, the boolean next to it is [false]. *)
Theorem comparison_errors (version compare end_ : str) :
  (snd (GreaterThanOrEqual semver version compare) = None <->
   Valid semver version = true /\ Valid semver compare = true /\
   (exists v, buildVersion semver version = Ok v) /\
   (exists c, buildVersion semver compare = Ok c)) /\
  (snd (SmallerThanOrEqual semver version compare) = None <->
   Valid semver version = true /\ Valid semver compare = true /\
   (exists v, buildVersion semver version = Ok v) /\
   (exists c, buildVersion semver compare = Ok c)) /\
  (snd (GreaterThanOrEqual semver version compare) <> None ->
   fst (GreaterThanOrEqual semver version compare) = false) /\
  (snd (SmallerThanOrEqual semver version compare) <> None ->
   fst (SmallerThanOrEqual semver version compare) = false) /\
  (snd (InRange semver version compare end_) <> None ->
   fst (InRange semver version compare end_) = false).
Proof.
  split; [ | split; [ | split; [ | split]]].
  - split.
    + intros H. apply GreaterThanOrEqual_nil_inv in H as (v & c & ? & ? & ? & ?). eauto 7.
    + intros (V1 & V2 & [v B1] & [c B2]).
      now rewrite (GreaterThanOrEqual_parsed _ _ _ v c).
  - split.
    + intros H. apply SmallerThanOrEqual_nil_inv in H as (v & c & ? & ? & ? & ?). eauto 7.
    + intros (V1 & V2 & [v B1] & [c B2]).
      now rewrite (SmallerThanOrEqual_parsed _ _ _ v c).
  - unfold GreaterThanOrEqual.
    destruct (Valid semver version); simpl; [ | reflexivity].
    destruct (Valid semver compare); simpl; [ | reflexivity].
    destruct (buildVersion semver version); [ | reflexivity].
    destruct (buildVersion semver compare); [ | reflexivity].
    repeat match goal with |- context [if ?b then _ else _] => destruct b end;
      simpl; congruence.
  - unfold SmallerThanOrEqual.
    destruct (Valid semver version); simpl; [ | reflexivity].
    destruct (Valid semver compare); simpl; [ | reflexivity].
    destruct (buildVersion semver version); [ | reflexivity].
    destruct (buildVersion semver compare); [ | reflexivity].
    repeat match goal with |- context [if ?b then _ else _] => destruct b end;
      simpl; congruence.
  - unfold InRange.
    destruct (GreaterThanOrEqual semver version compare) as [g [e | ]]; [reflexivity | ].
    destruct (negb (streq end_ [])); [ | simpl; congruence].
    destruct (SmallerThanOrEqual semver version end_) as [l [e | ]];
      [reflexivity | simpl; congruence].
Qed.

Lemma comparison_errors_witness :
  fst (GreaterThanOrEqual semver "1.2.3+build" "1.2.3") = false /\
  fst (InRange semver "1.2.3" "1.0.0" "99999999999999999999.0.0") = false.
Proof.
  split.
  - apply (proj1 (proj2 (proj2 (comparison_errors "1.2.3+build" "1.2.3" [])))).
    vm_compute. discriminate.
  - apply (proj2 (proj2 (proj2 (proj2
             (comparison_errors "1.2.3" "1.0.0" "99999999999999999999.0.0"))))).
    vm_compute. discriminate.
Defined.

(** ** What [buildVersion] returns on any text *)

Section Parser.

Import strings.

Lemma Atoi_error_form s e :
  strconv.Atoi s = Err e -> exists kind, e = NumError "Atoi" s kind.
Proof.
  unfold strconv.Atoi, strconv.syntaxError. intros H.
  repeat match type of H with
         | context [if ?b then _ else _] => destruct b
         | context [match ?x with [] => _ | _ :: _ => _ end] => destruct x
         | context [match ?x with Some _ => _ | None => _ end] => destruct x
         | context [match ?x with inl _ => _ | inr _ => _ end] => destruct x
         end; try discriminate; injection H as <-; eauto.
Qed.

Lemma part_no_dash version i :
  ~ In "-"%char (nth i (Split (coreOf version) ".") []).
Proof.
  destruct (nth_in_or_default i (Split (coreOf version) ".") []) as [Hin | ->];
    [ | intros []].
  intros Hd. apply (coreOf_no_dash version).
  now apply (Split_bytes "."%char (coreOf version) _ _ Hin).
Qed.

Lemma Split_app_notin (sep : ascii) x y :
  ~ In sep x ->
  Split (x ++ y) sep = (x ++ hd [] (Split y sep)) :: tl (Split y sep).
Proof.
  intros Hx. destruct (in_dec ascii_dec sep y) as [Hin | Hnin].
  - destruct (first_cut _ _ Hin) as (a & b & -> & Ha).
    rewrite app_assoc, !Split_first; auto.
    rewrite in_app_iff. tauto.
  - rewrite !Split_notin; auto. rewrite in_app_iff. tauto.
Qed.

End Parser.

(** X7.  Every error of [buildVersion], on any text, is of one of two kinds:
    the parts-count error, returned when the text before the first dash has
    neither 2 nor 3 dot-separated parts and reporting their number; or the
    traced error of [strconv.Atoi] on one of the first three parts, which
    quotes that part.  The chunk-count error is never returned. *)
Theorem buildVersion_errors (version : str) (e : error) :
  buildVersion semver version = Err e ->
  let parts := strings.Split (coreOf version) "." in
  let n := List.length parts in
  ((n <> 2%nat /\ n <> 3%nat /\ e = partsCountError n) \/
   (exists i kind,
      (i < 3)%nat /\ (i < n)%nat /\
      strconv.Atoi (nth i parts []) = Err (NumError "Atoi" (nth i parts []) kind) /\
      e = Trace (NumError "Atoi" (nth i parts []) kind))) /\
  (forall k, e <> Errorf (lit "versions with a tag should be 2 chunks. Got "
                            ++ formatInt k)).
Proof.
  intros H. cbv zeta.
  rewrite buildVersion_by_parts in H. cbv zeta in H.
  set (parts := strings.Split (coreOf version) ".") in *.
  assert (T : (List.length parts <> 2%nat /\ List.length parts <> 3%nat /\
               e = partsCountError (List.length parts)) \/
              (exists i kind,
                 (i < 3)%nat /\ (i < List.length parts)%nat /\
                 strconv.Atoi (nth i parts [])
                 = Err (NumError "Atoi" (nth i parts []) kind) /\
                 e = Trace (NumError "Atoi" (nth i parts []) kind))).
  { destruct (Nat.eqb_spec (List.length parts) 2) as [N2 | N2];
      destruct (Nat.eqb_spec (List.length parts) 3) as [N3 | N3];
      cbn [orb] in H; try lia.
    - right.
      destruct (strconv.Atoi (nth 0 parts [])) as [x | e0] eqn:A0.
      + destruct (strconv.Atoi (nth 1 parts [])) as [y | e1] eqn:A1; [discriminate | ].
        injection H as <-. destruct (Atoi_error_form _ _ A1) as [kind ->].
        exists 1%nat, kind. repeat split; auto; lia.
      + injection H as <-. destruct (Atoi_error_form _ _ A0) as [kind ->].
        exists 0%nat, kind. repeat split; auto; lia.
    - right.
      destruct (strconv.Atoi (nth 0 parts [])) as [x | e0] eqn:A0.
      + destruct (strconv.Atoi (nth 1 parts [])) as [y | e1] eqn:A1.
        * destruct (strconv.Atoi (nth 2 parts [])) as [z | e2] eqn:A2; [discriminate | ].
          injection H as <-. destruct (Atoi_error_form _ _ A2) as [kind ->].
          exists 2%nat, kind. repeat split; auto; lia.
        * injection H as <-. destruct (Atoi_error_form _ _ A1) as [kind ->].
          exists 1%nat, kind. repeat split; auto; lia.
      + injection H as <-. destruct (Atoi_error_form _ _ A0) as [kind ->].
        exists 0%nat, kind. repeat split; auto; lia.
    - left. injection H as <-. auto. }
  split; [exact T | ].
  intros k. destruct T as [(_ & _ & ->) | (i & kind & _ & _ & _ & ->)];
    [ | discriminate].
  unfold partsCountError. intros E. injection E as E. discriminate E.
Qed.

Lemma buildVersion_errors_witness :
  (List.length (strings.Split (coreOf "1.2.x-rc.1") ".") <> 2%nat /\
   List.length (strings.Split (coreOf "1.2.x-rc.1") ".") <> 3%nat /\
   Trace (NumError "Atoi" "x" ErrSyntax)
   = partsCountError (List.length (strings.Split (coreOf "1.2.x-rc.1") "."))) \/
  (exists i kind,
     (i < 3)%nat /\ (i < List.length (strings.Split (coreOf "1.2.x-rc.1") "."))%nat /\
     strconv.Atoi (nth i (strings.Split (coreOf "1.2.x-rc.1") ".") [])
     = Err (NumError "Atoi" (nth i (strings.Split (coreOf "1.2.x-rc.1") ".") []) kind) /\
     Trace (NumError "Atoi" "x" ErrSyntax)
     = Trace (NumError "Atoi" (nth i (strings.Split (coreOf "1.2.x-rc.1") ".") []) kind)).
Proof.
  apply (buildVersion_errors "1.2.x-rc.1" (Trace (NumError "Atoi" "x" ErrSyntax))).
  reflexivity.
Defined.

(** X8.  Whatever the text, valid or not, the three numbers of a version that
    [buildVersion] returns lie between 0 and the largest [int]: a sign in
    front of a part cannot make one negative, a dash being where the tag
    starts. *)
Theorem buildVersion_numbers_in_range (version : str) (v : semVersion) :
  buildVersion semver version = Ok v ->
  0 <= major v <= maxInt /\ 0 <= minor v <= maxInt /\ 0 <= revision v <= maxInt.
Proof.
  intros H. rewrite buildVersion_by_parts in H. cbv zeta in H.
  set (parts := strings.Split (coreOf version) ".") in *.
  assert (Z0 : 0 <= 0 <= maxInt) by (unfold maxInt; rewrite pow63; lia).
  destruct ((List.length parts =? 2)%nat || (List.length parts =? 3)%nat);
    [ | discriminate].
  destruct (strconv.Atoi (nth 0 parts [])) as [x | ] eqn:A0; [ | discriminate].
  destruct (strconv.Atoi (nth 1 parts [])) as [y | ] eqn:A1; [ | discriminate].
  apply Atoi_no_dash in A0; [ | apply part_no_dash].
  apply Atoi_no_dash in A1; [ | apply part_no_dash].
  destruct (List.length parts =? 3)%nat.
  - destruct (strconv.Atoi (nth 2 parts [])) as [z | ] eqn:A2; [ | discriminate].
    apply Atoi_no_dash in A2; [ | apply part_no_dash].
    injection H as <-. simpl. auto.
  - injection H as <-. simpl. auto.
Qed.

Lemma buildVersion_numbers_in_range_witness :
  0 <= 7 <= maxInt /\ 0 <= 12 <= maxInt /\ 0 <= 0 <= maxInt.
Proof.
  apply (buildVersion_numbers_in_range "+7.012-x"
           {| major := 7; minor := 12; revision := 0; tag := "x" |}).
  reflexivity.
Defined.

(** X9.  The tag is the text after the first dash, kept as it is, and the
    numbers are those of the text before it: parsing [a-r], where [a] has no
    dash, is parsing [a] and setting the tag to [r]; a text without a dash
    parses to an empty tag; and a parsed text is its core followed, when it
    has a dash, by a dash and the tag. *)
Theorem buildVersion_tag (a r : str) :
  ~ In "-"%char a ->
  buildVersion semver (a ++ "-"%char :: r)
  = match buildVersion semver a with
    | Ok v => Ok (setTag v r)
    | Err e => Err e
    end /\
  (forall v, buildVersion semver a = Ok v -> tag v = []) /\
  (forall version v,
     buildVersion semver version = Ok v ->
     version = coreOf version ++
               (if strings.Contains version "-" then "-"%char :: tag v else [])).
Proof.
  intros Ha. split; [ | split].
  - rewrite !buildVersion_by_parts. cbv zeta.
    rewrite coreOf_cut, coreOf_plain, tagOf_cut, tagOf_plain by assumption.
    set (parts := strings.Split a ".").
    destruct ((List.length parts =? 2)%nat || (List.length parts =? 3)%nat);
      [ | reflexivity].
    destruct (strconv.Atoi (nth 0 parts [])); [ | reflexivity].
    destruct (strconv.Atoi (nth 1 parts [])); [ | reflexivity].
    destruct (List.length parts =? 3)%nat; [ | reflexivity].
    destruct (strconv.Atoi (nth 2 parts [])); reflexivity.
  - intros v H. rewrite buildVersion_by_parts in H. cbv zeta in H.
    rewrite tagOf_plain in H by assumption.
    repeat match type of H with
           | context [if ?b then _ else _] => destruct b
           | context [match ?x with Ok _ => _ | Err _ => _ end] => destruct x
           end; try discriminate; injection H as <-; reflexivity.
  - intros version v H.
    assert (T : tag v = tagOf version).
    { rewrite buildVersion_by_parts in H. cbv zeta in H.
      repeat match type of H with
             | context [if ?b then _ else _] => destruct b
             | context [match ?x with Ok _ => _ | Err _ => _ end] => destruct x
             end; try discriminate; injection H as <-; reflexivity. }
    rewrite T. apply core_dash_tag.
Qed.

Lemma buildVersion_tag_witness :
  buildVersion semver "10.5.7-dashes-and.dots"
  = Ok {| major := 10; minor := 5; revision := 7; tag := "dashes-and.dots" |}.
Proof.
  apply (buildVersion_tag "10.5.7" "dashes-and.dots").
  vm_compute. intuition discriminate.
Defined.

(** ** What [Valid] accepts *)

Section Accepted.

Import strings.

(** A text in the language of an expression is written with the bytes the
    expression reads. *)
Lemma matches_reads r s : matches r s -> forallb (reads r) s = true.
Proof.
  induction 1 as [ | c | ranges c E | r1 r2 s1 s2 _ IH1 _ IH2
                 | r1 r2 s _ IH | r1 r2 s _ IH | | r s1 s2 _ IH1 _ IH2 ];
    try reflexivity.
  - simpl. now rewrite Ascii.eqb_refl.
  - simpl. now rewrite E.
  - rewrite forallb_app. apply andb_true_iff. split.
    + rewrite forallb_forall in *. intros x Hx. simpl. now rewrite IH1.
    + rewrite forallb_forall in *. intros x Hx. simpl. rewrite IH2 by assumption.
      apply orb_true_r.
  - rewrite forallb_forall in *. intros x Hx. simpl. now rewrite IH.
  - rewrite forallb_forall in *. intros x Hx. simpl. rewrite IH by assumption.
    apply orb_true_r.
  - rewrite forallb_forall in *. intros x Hx. apply in_app_or in Hx as [Hx | Hx].
    + now apply IH1.
    + now apply (IH2 x).
Qed.

Lemma reads_versionByte c : reads reSemver c = true -> versionByte c = true.
Proof.
  destruct c as [[] [] [] [] [] [] [] []]; vm_compute; intros H; congruence.
Qed.

Lemma numeral_matches n : isNumeral n = true -> matches reNumeric n.
Proof.
  unfold isNumeral. destruct n as [ | c rest]; [discriminate | ].
  intros H. apply andb_true_iff in H as [D Z].
  cbn [allDigits forallb] in D. apply andb_true_iff in D as [Dc Dr].
  destruct (Ascii.eqb_spec c "0"%char) as [-> | Hc].
  - destruct rest; [ | discriminate]. apply m_alt_l. constructor.
  - apply m_alt_r. apply (m_concat _ _ [c] rest).
    + constructor. unfold inClass. simpl. rewrite orb_false_r.
      unfold isDigit, between in *. apply andb_true_iff in Dc as [D1 D2].
      rewrite D2, andb_true_r. apply Z.leb_le. apply Z.leb_le in D1.
      change (code "0") with 48 in D1. change (code "1") with 49.
      assert (code c <> 48) by (intros E; apply Hc, code_inj; exact E). lia.
    + apply matches_star_class_iff.
      assert (Q : forall l, forallb (inClass [("0", "9")]%char) l = forallb isDigit l).
      { induction l as [ | x l IH]; [reflexivity | ].
        cbn [forallb]. now rewrite IH, inClass_digit. }
      rewrite Q. exact Dr.
Qed.

Lemma numeral_shape n : isNumeral n = true ->
  n <> [] /\ allDigits n = true /\ leadingZero n = false.
Proof.
  unfold isNumeral. destruct n; [discriminate | ].
  intros H. apply andb_true_iff in H as [D Z]. apply negb_true_iff in Z.
  split; [discriminate | auto].
Qed.

Lemma suffix_nil : matches reSuffix [].
Proof.
  apply (m_concat _ _ [] []); apply m_alt_r; constructor.
Qed.

End Accepted.

(** X10.  A string that [Valid] accepts is written with digits, the letters
    a-z and A-Z, dots, dashes and plus signs only, starts with a digit, and
    has at least five bytes. *)
Theorem Valid_bytes (s : str) :
  Valid semver s = true ->
  forallb versionByte s = true /\ startsWithDigit s = true /\ 5 <= len s.
Proof.
  intros V. split; [ | split].
  - apply Valid_matches, matches_reads in V.
    rewrite forallb_forall in *. intros c Hc. apply reads_versionByte. auto.
  - apply Valid_shape in V as (a & b & c & t & -> & Ha & _).
    apply numeric_shape in Ha as (Na & Da & _).
    destruct a as [ | x a]; [congruence | ].
    simpl in Da. apply andb_true_iff in Da as [Dx _]. exact Dx.
  - apply Valid_shape in V as (a & b & c & t & -> & Ha & Hb & Hc & _).
    apply numeric_shape in Ha as (Na & _). apply numeric_shape in Hb as (Nb & _).
    apply numeric_shape in Hc as (Nc & _).
    unfold len, dotted. rewrite !length_app. cbn [List.length]. rewrite length_app.
    cbn [List.length].
    destruct a; [congruence | ]. destruct b; [congruence | ]. destruct c; [congruence | ].
    cbn [List.length]. lia.
Qed.

Lemma Valid_bytes_witness :
  forallb versionByte (lit "1.0.0-rc.1+build.5") = true /\
  startsWithDigit "1.0.0-rc.1+build.5" = true /\ 5 <= len "1.0.0-rc.1+build.5".
Proof. apply (Valid_bytes "1.0.0-rc.1+build.5"). reflexivity. Defined.

(** X11.  Three numerals (digits, at least one, no zero before other digits)
    joined by dots are a valid version; when each number is at most the
    largest [int], [buildVersion] parses the text to these three numbers and
    an empty tag, whatever their length. *)
Theorem numerals_valid_and_parsed (a b c : str) :
  isNumeral a = true -> isNumeral b = true -> isNumeral c = true ->
  Valid semver (dotted a b c) = true /\
  (decimalValue a <= maxInt -> decimalValue b <= maxInt -> decimalValue c <= maxInt ->
   buildVersion semver (dotted a b c)
   = Ok {| major := decimalValue a; minor := decimalValue b;
           revision := decimalValue c; tag := [] |}).
Proof.
  intros Ha Hb Hc. split.
  - apply Valid_shape. exists a, b, c, []. rewrite app_nil_r.
    repeat split; auto using numeral_matches, suffix_nil.
  - apply numeral_shape in Ha as (Na & Da & _).
    apply numeral_shape in Hb as (Nb & Db & _).
    apply numeral_shape in Hc as (Nc & Dc & _).
    intros Ma Mb Mc. now apply parse_dotted.
Qed.

Lemma numerals_valid_and_parsed_witness :
  Valid semver (dotted "192" "10" "999") = true /\
  (decimalValue "192" <= maxInt -> decimalValue "10" <= maxInt ->
   decimalValue "999" <= maxInt ->
   buildVersion semver (dotted "192" "10" "999")
   = Ok {| major := decimalValue "192"; minor := decimalValue "10";
           revision := decimalValue "999"; tag := [] |}).
Proof. apply (numerals_valid_and_parsed "192" "10" "999"); reflexivity. Defined.

(** ** Which valid versions parse *)

Section ValidParse.

Import strings.

Lemma Atoi_digits_fit s x :
  allDigits s = true -> strconv.Atoi s = Ok x -> decimalValue s <= maxInt.
Proof.
  intros D H. destruct (Z_le_gt_dec (decimalValue s) maxInt) as [Hle | Hgt]; [assumption | ].
  rewrite Atoi_range in H by (auto; lia). discriminate.
Qed.

(** With the core numbers alone before the tag, parsing succeeds only when
    the three numbers fit. *)
Lemma parse_core_fits s a b c t v :
  allDigits a = true -> allDigits b = true -> allDigits c = true ->
  coreOf (dotted a b c ++ t) = dotted a b c ->
  buildVersion s (dotted a b c ++ t) = Ok v ->
  decimalValue a <= maxInt /\ decimalValue b <= maxInt /\ decimalValue c <= maxInt.
Proof.
  intros Da Db Dc Hcore H. rewrite buildVersion_by_parts in H. cbv zeta in H.
  rewrite Hcore, Split_dotted in H by assumption.
  cbn [List.length nth Nat.eqb orb] in H.
  destruct (strconv.Atoi a) as [x | ] eqn:Aa; [ | discriminate].
  destruct (strconv.Atoi b) as [y | ] eqn:Ab; [ | discriminate].
  destruct (strconv.Atoi c) as [z | ] eqn:Ac; [ | discriminate].
  split; [ | split]; eapply Atoi_digits_fit; eassumption.
Qed.

(** With a plus sign right after the core numbers, parsing fails. *)
Lemma parse_plain_build s a b c r :
  c <> [] ->
  allDigits a = true -> allDigits b = true -> allDigits c = true ->
  exists e, buildVersion s (dotted a b c ++ "+"%char :: r) = Err e.
Proof.
  intros Nc Da Db Dc. rewrite buildVersion_by_parts. cbv zeta.
  rewrite coreOf_app by now apply dotted_no_dash.
  change ("+"%char :: r) with (["+"%char] ++ r).
  rewrite (coreOf_app ["+"%char] r) by (simpl; intros [E | []]; discriminate).
  rewrite dotted_app.
  rewrite !Split_first by (apply allDigits_notin; auto).
  rewrite app_assoc.
  rewrite (Split_app_notin "."%char (c ++ ["+"%char])).
  2:{ rewrite in_app_iff. simpl.
      pose proof (allDigits_notin c "."%char Dc eq_refl).
      intros [ | [ | ]]; try tauto; discriminate. }
  set (h := hd [] (Split (coreOf r) ".")). set (rest := tl (Split (coreOf r) ".")).
  cbn [List.length nth].
  destruct rest as [ | p rest]; cbn [List.length Nat.eqb orb]; [ | eauto].
  destruct (strconv.Atoi a); [ | eauto].
  destruct (strconv.Atoi b); [ | eauto].
  destruct c as [ | d c']; [congruence | ].
  simpl in Dc. apply andb_true_iff in Dc as [Dd Dc'].
  destruct (Atoi_nondigit d ((c' ++ ["+"%char]) ++ h) Dd) as [e He].
  { rewrite <- app_assoc, allDigits_app. simpl. apply andb_false_r. }
  cbn [app] in *. rewrite He. eauto.
Qed.

End ValidParse.

(** X12.  A string that [Valid] accepts is parsed by [buildVersion] without
    error exactly when its three core numbers are each at most the largest
    [int] and its core is not directly followed by a plus sign. *)
Theorem valid_parse_iff (version : str) :
  Valid semver version = true ->
  ((exists v, buildVersion semver version = Ok v) <->
   plainBuild version = false /\ coreFits version = true).
Proof.
  intros V. split.
  - intros [v B].
    apply Valid_shape in V as (a & b & c & t & -> & Ha & Hb & Hc & Ht).
    apply numeric_shape in Ha as (Na & Da & _).
    apply numeric_shape in Hb as (Nb & Db & _).
    apply numeric_shape in Hc as (Nc & Dc & _).
    pose proof (scanCore_dotted a b c t Da Db Dc (suffix_no_digit t Ht)) as Sc.
    unfold plainBuild, coreFits, coreNumbers, coreSegments. rewrite Sc. simpl fst. simpl snd.
    pose proof (dotted_no_dash a b c Da Db Dc) as Nd.
    destruct (suffix_head t Ht) as [-> | [[r ->] | [r ->]]].
    + split; [reflexivity | ].
      destruct (parse_core_fits semver a b c [] v Da Db Dc) as (Fa & Fb & Fc);
        [rewrite app_nil_r; now apply coreOf_plain | assumption | ].
      simpl. apply Z.leb_le in Fa, Fb, Fc. now rewrite Fa, Fb, Fc.
    + split; [reflexivity | ].
      destruct (parse_core_fits semver a b c ("-"%char :: r) v Da Db Dc) as (Fa & Fb & Fc);
        [now apply coreOf_cut | assumption | ].
      simpl. apply Z.leb_le in Fa, Fb, Fc. now rewrite Fa, Fb, Fc.
    + destruct (parse_plain_build semver a b c r Nc Da Db Dc) as [e He].
      rewrite He in B. discriminate.
  - intros [P F]. destruct (buildVersion_valid semver version V P F) as (v & B & _).
    now exists v.
Qed.

Lemma valid_parse_iff_witness :
  (exists v, buildVersion semver "1.2.3-rc.1+build.5" = Ok v) <->
  plainBuild "1.2.3-rc.1+build.5" = false /\ coreFits "1.2.3-rc.1+build.5" = true.
Proof. apply (valid_parse_iff "1.2.3-rc.1+build.5"). reflexivity. Defined.

(** X13.  From the texts alone: on two valid strings whose core numbers fit
    an [int] and whose cores are not directly followed by a plus sign, the
    comparisons return no error and order the strings by their core numbers,
    read as decimal numbers: [GreaterThanOrEqual] is [true] exactly when the
    numbers of [compare] come at or before those of [version] in the
    lexicographic order, and [SmallerThanOrEqual] the other way round. *)
Theorem comparisons_by_core_numbers (version compare : str) :
  Valid semver version = true -> Valid semver compare = true ->
  plainBuild version = false -> plainBuild compare = false ->
  coreFits version = true -> coreFits compare = true ->
  exists v c,
    triple v = coreNumbers version /\ triple c = coreNumbers compare /\
    snd (GreaterThanOrEqual semver version compare) = None /\
    snd (SmallerThanOrEqual semver version compare) = None /\
    (fst (GreaterThanOrEqual semver version compare) = true <-> lexLe c v) /\
    (fst (SmallerThanOrEqual semver version compare) = true <-> lexLe v c).
Proof.
  intros V1 V2 P1 P2 F1 F2.
  destruct (buildVersion_valid semver version V1 P1 F1) as (v & Bv & Tv).
  destruct (buildVersion_valid semver compare V2 P2 F2) as (c & Bc & Tc).
  exists v, c.
  destruct (GreaterThanOrEqual_lexLe semver _ _ v c V1 V2 Bv Bc) as [G1 G2].
  destruct (SmallerThanOrEqual_lexLe semver _ _ v c V1 V2 Bv Bc) as [L1 L2].
  auto 7.
Qed.

Lemma comparisons_by_core_numbers_witness :
  exists v c,
    triple v = coreNumbers "1.10.0" /\ triple c = coreNumbers "1.9.18-hotfix" /\
    snd (GreaterThanOrEqual semver "1.10.0" "1.9.18-hotfix") = None /\
    snd (SmallerThanOrEqual semver "1.10.0" "1.9.18-hotfix") = None /\
    (fst (GreaterThanOrEqual semver "1.10.0" "1.9.18-hotfix") = true <-> lexLe c v) /\
    (fst (SmallerThanOrEqual semver "1.10.0" "1.9.18-hotfix") = true <-> lexLe v c).
Proof.
  apply (comparisons_by_core_numbers "1.10.0" "1.9.18-hotfix"); reflexivity.
Defined.
